(** * brkt_cli.aws.aws_service: retry engine, resource adapter, validators

    A shallow embedding of [brkt_cli/aws/aws_service.py]: the [retry_boto]
    decorator, [_get_first_element], the [AWSService] operations built on
    them, and the three validators.  Python exceptions are an explicit
    error type, the provider connection is state passed through every call,
    and tag dictionaries live in a store of mutable objects.  Calls to the
    logger are left out: they change nothing that the functions return or
    send. *)

From Stdlib Require Import String Ascii List ZArith QArith Lia Lqa.
From stdpp Require Import gmap strings.

Open Scope string_scope.

(** ** Python values shared by every part *)

(** [boto.exception.EC2ResponseError(status, reason, body=None)].  The two
    positional arguments of the constructor are [status] and [reason];
    [error_code] is read from the response body, and is [None] for an error
    built without one. *)
Record EC2ResponseError := mkEC2ResponseError {
  status : string;
  reason : string;
  error_code : option string
}.

(** The exception kinds that occur in the module. *)
Inductive exn :=
| EC2Error (e : EC2ResponseError)
| ValidationError (msg : string)
| TypeError (msg : string)
| Exception (msg : string).

(** A call either returns a value or raises. *)
Inductive outcome (A : Type) :=
| Return (a : A)
| Raise (x : exn).
Arguments Return {A} a.
Arguments Raise {A} x.

(** Python truthiness of an optional string argument ([None] and [''] are
    both false). *)
Definition truthy (s : option string) : bool :=
  match s with
  | Some (String _ _) => true
  | _ => false
  end.

(** ** The fragment of [re] that the module's patterns use *)

Definition newline : ascii := "010"%char.

Inductive atom :=
| Lit (c : ascii)               (* a character, or an escaped one such as \. *)
| Dot                           (* .  : any character except a newline *)
| Cls (p : ascii -> bool).      (* [...] *)

Inductive regex :=
| One (a : atom)
| Star (a : atom)               (* a*  *)
| Plus (a : atom)               (* a+  *)
| Cat (r1 r2 : regex)
| Alt (r1 r2 : regex)           (* r1|r2 *)
| Dollar.                       (* $ *)

Definition atom_ok (a : atom) (c : ascii) : bool :=
  match a with
  | Lit d => Ascii.eqb d c
  | Dot => negb (Ascii.eqb c newline)
  | Cls p => p c
  end.

(** [$] without MULTILINE: the end of the string, or just before a newline
    that is the last character of the string. *)
Definition at_end (s : string) : bool :=
  match s with
  | EmptyString => true
  | String c EmptyString => Ascii.eqb c newline
  | _ => false
  end.

(** Matching with a continuation [k] for the rest of the subject; a
    backtracking matcher finds a match whenever one exists, so the order of
    the alternatives does not change the boolean answer. *)
Fixpoint star_k (a : atom) (s : string) (k : string -> bool) : bool :=
  match s with
  | String c s' => (atom_ok a c && star_k a s' k) || k s
  | EmptyString => k s
  end.

Fixpoint match_k (r : regex) (s : string) (k : string -> bool) : bool :=
  match r with
  | One a =>
      match s with
      | String c s' => atom_ok a c && k s'
      | EmptyString => false
      end
  | Star a => star_k a s k
  | Plus a =>
      match s with
      | String c s' => atom_ok a c && star_k a s' k
      | EmptyString => false
      end
  | Cat r1 r2 => match_k r1 s (fun s' => match_k r2 s' k)
  | Alt r1 r2 => match_k r1 s k || match_k r2 s k
  | Dollar => at_end s && k s
  end.

(** [re.match(pattern, s)] as a boolean: the pattern is anchored at the
    start of [s] only. *)
Definition re_match (r : regex) (s : string) : bool :=
  match_k r s (fun _ => true).

(** A pattern that is a run of literal characters, [c] followed by [rest]. *)
Fixpoint lit (c : ascii) (rest : string) : regex :=
  match rest with
  | EmptyString => One (Lit c)
  | String d rest' => Cat (One (Lit c)) (lit d rest')
  end.

(** The empty pattern matches the empty prefix of every subject. *)
Definition literal (s : string) : regex :=
  match s with
  | String c rest => lit c rest
  | EmptyString => Star (Cls (fun _ => false))
  end.

(** ** Validators *)

Definition in_range (lo hi c : ascii) : bool :=
  (nat_of_ascii lo <=? nat_of_ascii c)%nat && (nat_of_ascii c <=? nat_of_ascii hi)%nat.

(** The character set [[A-Za-z0-9()\[\] ./\-\'@_]]. *)
Definition image_name_char (c : ascii) : bool :=
  in_range "A" "Z" c || in_range "a" "z" c || in_range "0" "9" c
  || existsb (Ascii.eqb c)
       ["("; ")"; "["; "]"; " "; "."; "/"; "-"; "'"; "@"; "_"]%char.

(** [r'[A-Za-z0-9()\[\] ./\-\'@_]+$'] *)
Definition image_name_re : regex := Cat (Plus (Cls image_name_char)) Dollar.

Definition validate_image_name (name : string) : outcome string :=
  if negb (truthy (Some name)
           && (3 <=? String.length name)%nat
           && (String.length name <=? 128)%nat)
  then Raise (ValidationError
                "Image name must be between 3 and 128 characters long")
  else if negb (re_match image_name_re name)
  then Raise (ValidationError
                "Image name may only contain letters, numbers, spaces, and the following characters: ()[]./-'@_")
  else Return name.

(** The two messages about the reserved prefix quote [aws:] with double
    quotes in the source. *)
Definition validate_tag_key (key : string) : outcome string :=
  if (127 <? String.length key)%nat
  then Raise (ValidationError "Tag key cannot be longer than 127 characters")
  else if String.prefix "aws:" key
  then Raise (ValidationError "Tag key cannot start with 'aws:'")
  else Return key.

Definition validate_tag_value (value : string) : outcome string :=
  if (255 <? String.length value)%nat
  then Raise (ValidationError "Tag value cannot be longer than 255 characters")
  else if String.prefix "aws:" value
  then Raise (ValidationError "Tag value cannot start with 'aws:'")
  else Return value.

(** ** [retry_boto] *)

(** What one call of a decorated function did: its outcome, the state it
    left, how many times it invoked the wrapped function, and the arguments
    of its [time.sleep] calls in order. *)
Record run (W A : Type) := mkRun {
  out : outcome A;
  world : W;
  calls : nat;
  slept : list Q
}.
Arguments mkRun {W A}.
Arguments out {W A}.
Arguments world {W A}.
Arguments calls {W A}.
Arguments slept {W A}.

Definition default_max_retries : Z := 5.
Definition default_initial_sleep_seconds : Q := 1 # 4.

Section RetryBoto.
Context {W A : Type}.
Variable error_code_regexp : regex.
Variable max_retries : Z.
Variable initial_sleep_seconds : Q.
(** The wrapped function with its arguments applied; [W] is everything
    it can read or change. *)
Variable func : W -> outcome A * W.

(** The [while True] loop of [func_wrapper].  [fuel] bounds the number of
    iterations; [n_calls] and [sleeps] only record what happened. *)
Fixpoint retry_loop (fuel : nat) (retries : Z) (sleep_seconds : Q) (w : W)
    (n_calls : nat) (sleeps : list Q) : option (run W A) :=
  match fuel with
  | O => None
  | S fuel' =>
      match func w with
      | (Return v, w') => Some (mkRun (Return v) w' (S n_calls) sleeps)
      | (Raise (EC2Error e), w') =>
          if (retries >=? max_retries)%Z
          then Some (mkRun (Raise (EC2Error e)) w' (S n_calls) sleeps)
          else
            match error_code e with
            | None =>
                (* re.match(pattern, None) *)
                Some (mkRun (Raise (TypeError "expected string or buffer"))
                        w' (S n_calls) sleeps)
            | Some code =>
                if re_match error_code_regexp code
                then retry_loop fuel' (retries + 1)%Z (sleep_seconds * 2)%Q w'
                       (S n_calls) (sleeps ++ [sleep_seconds])
                else Some (mkRun (Raise (EC2Error e)) w' (S n_calls) sleeps)
            end
      | (Raise x, w') => Some (mkRun (Raise x) w' (S n_calls) sleeps)
      end
  end.

(** [retry_boto(error_code_regexp, max_retries, initial_sleep_seconds)(func)].
    The loop leaves after at most [max_retries + 1] iterations. *)
Definition retry_boto (w : W) : option (run W A) :=
  retry_loop (S (Z.to_nat max_retries)) 0%Z initial_sleep_seconds w 0 [].

(** The state before invocation number [n] (from 0) in a run where every
    earlier invocation was followed by another one. *)
Fixpoint world_before (n : nat) (w : W) : W :=
  match n with
  | O => w
  | S n' => world_before n' (snd (func w))
  end.

(** What invocation number [n] (from 0) of the wrapped function does. *)
Definition invocation (n : nat) (w : W) : outcome A :=
  fst (func (world_before n w)).

(** The errors on which the loop sleeps and tries again. *)
Definition retryable (x : exn) : bool :=
  match x with
  | EC2Error e =>
      match error_code e with
      | Some code => re_match error_code_regexp code
      | None => false
      end
  | _ => false
  end.

(** The errors that leave the loop at once whatever [retries] is: an
    [EC2ResponseError] whose code the pattern does not match, and every
    exception that the [except] clause does not catch. *)
Definition unrecognised (x : exn) : bool :=
  match x with
  | EC2Error e =>
      match error_code e with
      | Some code => negb (re_match error_code_regexp code)
      | None => false
      end
  | _ => true
  end.

End RetryBoto.

(** ** The adapter *)

Definition _get_first_element {R : Type} (list : list R) (error_status : string)
    : outcome R :=
  match list with
  | x :: _ => Return x
  | [] => Raise (EC2Error (mkEC2ResponseError
                            error_status "AWS API returned an empty response" None))
  end.

(** Continue with [k] when the call returned, pass the exception on when it
    raised. *)
Definition and_then {W A B : Type} (r : outcome A * W) (k : A -> outcome B)
    : outcome B * W :=
  match r with
  | (Return a, w) => (k a, w)
  | (Raise x, w) => (Raise x, w)
  end.

(** The methods of [self.conn] that the operations below call.  [W] is the
    state of the provider, [R] the resource objects it hands out. *)
Record EC2Connection (W R : Type) := {
  conn_get_only_instances : list string -> W -> outcome (list R) * W;
  conn_get_all_volumes : list string -> W -> outcome (list R) * W;
  conn_get_all_snapshots : list string -> W -> outcome (list R) * W;
  conn_get_all_security_groups : list string -> W -> outcome (list R) * W;
  conn_get_all_key_pairs : list string -> W -> outcome (list R) * W;
  conn_get_all_subnets : list string -> W -> outcome (list R) * W;
  conn_delete_volume : string -> W -> outcome bool * W;
  conn_create_tags : list string -> gmap string string -> W -> outcome unit * W
}.
Arguments conn_get_only_instances {W R}.
Arguments conn_get_all_volumes {W R}.
Arguments conn_get_all_snapshots {W R}.
Arguments conn_get_all_security_groups {W R}.
Arguments conn_get_all_key_pairs {W R}.
Arguments conn_get_all_subnets {W R}.
Arguments conn_delete_volume {W R}.
Arguments conn_create_tags {W R}.

(** Tag dictionaries are mutable objects: a variable holds a reference
    into the store, and two references to one object see each other's
    writes. *)
Definition loc := positive.

(** What the adapter's methods can read or change: the store of
    dictionaries, the attribute [self.default_tags] of the service object,
    and the provider behind [self.conn].  [sent] records the arguments of
    every [self.conn.create_tags] request, oldest first. *)
Record state (W : Type) := mkState {
  heap : gmap loc (gmap string string);
  default_tags : loc;
  provider : W;
  sent : list (list string * gmap string string)
}.
Arguments mkState {W}.
Arguments heap {W}.
Arguments default_tags {W}.
Arguments provider {W}.
Arguments sent {W}.

(** [AWSService.__init__]: [self.default_tags = default_tags or {}].  A
    non-empty dictionary passed by the caller is kept by reference; [None]
    or an empty dictionary is replaced by a new empty one. *)
Definition AWSService_init {W : Type} (default_tags : option loc)
    (h : gmap loc (gmap string string)) (w : W) : state W :=
  let new := fresh (dom h) in
  match default_tags with
  | Some l =>
      match h !! l with
      | Some d =>
          if decide (d = ∅)
          then mkState (<[new := ∅]> h) new w []
          else mkState h l w []
      | None => mkState (<[new := ∅]> h) new w []
      end
  | None => mkState (<[new := ∅]> h) new w []
  end.

(** [if v: d[key] = v] on the dictionary at [l]. *)
Definition set_if_truthy (l : loc) (key : string) (v : option string)
    (h : gmap loc (gmap string string)) : gmap loc (gmap string string) :=
  match v with
  | Some s => if truthy v then alter (insert key s) l h else h
  | None => h
  end.

Section Adapter.
Context {W R : Type}.
Variable conn : EC2Connection W R.

Definition get_instance_body (instance_id : string) (w : W) : outcome R * W :=
  and_then (conn_get_only_instances conn [instance_id] w)
    (fun instances => _get_first_element instances "InvalidInstanceID.NotFound").

(** [@retry_boto(error_code_regexp=r'InvalidInstanceID\.NotFound')] *)
Definition get_instance (instance_id : string) : W -> option (run W R) :=
  retry_boto (literal "InvalidInstanceID.NotFound")
    default_max_retries default_initial_sleep_seconds
    (get_instance_body instance_id).

Definition get_volume_body (volume_id : string) (w : W) : outcome R * W :=
  and_then (conn_get_all_volumes conn [volume_id] w)
    (fun volumes => _get_first_element volumes "InvalidVolume.NotFound").

(** [@retry_boto(error_code_regexp=r'InvalidVolume\.NotFound')] *)
Definition get_volume (volume_id : string) : W -> option (run W R) :=
  retry_boto (literal "InvalidVolume.NotFound")
    default_max_retries default_initial_sleep_seconds
    (get_volume_body volume_id).

Definition get_snapshot_body (snapshot_id : string) (w : W) : outcome R * W :=
  and_then (conn_get_all_snapshots conn [snapshot_id] w)
    (fun snapshots => _get_first_element snapshots "InvalidSnapshot.NotFound").

(** [@retry_boto(error_code_regexp=r'InvalidSnapshot\.NotFound')] *)
Definition get_snapshot (snapshot_id : string) : W -> option (run W R) :=
  retry_boto (literal "InvalidSnapshot.NotFound")
    default_max_retries default_initial_sleep_seconds
    (get_snapshot_body snapshot_id).

(** The inner function of [get_security_group], also the body of its
    [else] branch. *)
Definition get_with_retry (sg_id : string) (w : W) : outcome R * W :=
  and_then (conn_get_all_security_groups conn [sg_id] w)
    (fun groups => _get_first_element groups "InvalidGroup.NotFound").

(** [get_security_group(sg_id, retry=True)].  The result is a Python value
    that is a resource or [None].  The [if] branch calls the decorated
    inner function as a statement and falls off the end of the method; the
    [else] branch returns what [_get_first_element] returns. *)
Definition get_security_group (sg_id : string) (retry : bool) (w : W)
    : option (outcome (option R) * W) :=
  if retry then
    match retry_boto (literal "InvalidGroup.NotFound")
            default_max_retries default_initial_sleep_seconds
            (get_with_retry sg_id) w with
    | Some r =>
        match out r with
        | Return _ => Some (Return None, world r)
        | Raise x => Some (Raise x, world r)
        end
    | None => None
    end
  else
    Some (and_then (get_with_retry sg_id w) (fun g => Return (Some g))).

Definition get_key_pair (keyname : string) (w : W) : outcome R * W :=
  and_then (conn_get_all_key_pairs conn [keyname] w)
    (fun key_pairs => _get_first_element key_pairs "InvalidKeyPair.NotFound").

Definition get_subnet (subnet_id : string) (w : W) : outcome R * W :=
  and_then (conn_get_all_subnets conn [subnet_id] w)
    (fun subnets => _get_first_element subnets "InvalidSubnetID.NotFound").

(** The body of [delete_volume]: the inner [try] turns an error whose code
    is [InvalidVolume.NotFound] into a normal return. *)
Definition delete_volume_body (volume_id : string) (w : W) : outcome bool * W :=
  match conn_delete_volume conn volume_id w with
  | (Return _, w') => (Return true, w')
  | (Raise (EC2Error e), w') =>
      if decide (error_code e ≠ Some "InvalidVolume.NotFound")
      then (Raise (EC2Error e), w')
      else (Return true, w')
  | (Raise x, w') => (Raise x, w')
  end.

(** [@retry_boto(error_code_regexp=r'VolumeInUse')] *)
Definition delete_volume (volume_id : string) : W -> option (run W bool) :=
  retry_boto (literal "VolumeInUse")
    default_max_retries default_initial_sleep_seconds
    (delete_volume_body volume_id).

(** The body of [create_tags].  [dict(self.default_tags)] allocates a new
    dictionary with the same items; the two assignments write to the new
    one; the request carries its contents. *)
Definition create_tags_body (resource_id : string) (name description : option string)
    (st : state W) : outcome unit * state W :=
  let tags := fresh (dom (heap st)) in
  let h1 := <[tags := default ∅ (heap st !! default_tags st)]> (heap st) in
  let h2 := set_if_truthy tags "Name" name h1 in
  let h3 := set_if_truthy tags "Description" description h2 in
  let request := ([resource_id], default ∅ (h3 !! tags)) in
  let (r, w') := conn_create_tags conn (fst request) (snd request) (provider st) in
  (r, mkState h3 (default_tags st) w' (sent st ++ [request])).

(** [@retry_boto(error_code_regexp=r'.*\.NotFound')] *)
Definition create_tags (resource_id : string) (name description : option string)
    : state W -> option (run (state W) unit) :=
  retry_boto (Cat (Star Dot) (literal ".NotFound"))
    default_max_retries default_initial_sleep_seconds
    (create_tags_body resource_id name description).

End Adapter.

(** ** The time-bounded mode of the retry engine *)

(** What one call of the time-bounded retry did: its outcome, the state
    and the clock value it left, the number of attempts, and for every sleep
    the time that had elapsed since the start when it was entered, with its
    length. *)
Record timed_run (W A : Type) := mkTimedRun {
  t_out : outcome A;
  t_world : W;
  t_clock : Q;
  t_calls : nat;
  t_slept : list (Q * Q)
}.
Arguments mkTimedRun {W A}.
Arguments t_out {W A}.
Arguments t_world {W A}.
Arguments t_clock {W A}.
Arguments t_calls {W A}.
Arguments t_slept {W A}.

Section TimedRetry.
Context {W A : Type}.
(** The failure classifier of the policy. *)
Variable is_expected : exn -> bool.
Variable timeout : Q.
Variable initial_sleep_seconds : Q.
(** One attempt: its outcome, the wall-clock time it takes, the state it
    leaves. *)
Variable function : W -> outcome A * Q * W.

(** Modelled from the spec: the loop of the time-bounded retry
    ([brkt_cli.util.retry], of which only the tests in [test_util.py] are
    among the sources).  Time is a clock value carried along: an attempt
    runs to its end and advances the clock by its whole duration; after a
    failed attempt a non-retryable error is re-raised, the error is
    re-raised when the time elapsed since [start_time] exceeds [timeout],
    and otherwise the loop sleeps for the current delay, doubles it and
    tries again.  [fuel] bounds the number of attempts. *)
Fixpoint timed_loop (fuel : nat) (start_time : Q) (sleep_seconds : Q) (now : Q)
    (w : W) (n_calls : nat) (sleeps : list (Q * Q)) : option (timed_run W A) :=
  match fuel with
  | O => None
  | S fuel' =>
      let '(r, duration, w') := function w in
      let now' := (now + duration)%Q in
      match r with
      | Return v => Some (mkTimedRun (Return v) w' now' (S n_calls) sleeps)
      | Raise x =>
          if negb (is_expected x)
          then Some (mkTimedRun (Raise x) w' now' (S n_calls) sleeps)
          else if negb (Qle_bool (now' - start_time) timeout)
          then Some (mkTimedRun (Raise x) w' now' (S n_calls) sleeps)
          else timed_loop fuel' start_time (sleep_seconds * 2)%Q
                 (now' + sleep_seconds)%Q w' (S n_calls)
                 (sleeps ++ [((now' - start_time)%Q, sleep_seconds)])
      end
  end.

(** Modelled from the spec: the time-bounded retry entered at clock value
    [now]; the elapsed time is counted from the first attempt. *)
Definition timed_retry (fuel : nat) (now : Q) (w : W) : option (timed_run W A) :=
  timed_loop fuel now initial_sleep_seconds now w 0 [].

End TimedRetry.

(** [TestRetry._fail_for_n_calls(n, sleep_time)] of [test_util.py]: the
    state is [self.num_calls]; the exception is [TestException] unless
    another class is asked for. *)
Definition _fail_for_n_calls (n : nat) (sleep_time : Q) (exception_class : exn)
    (num_calls : nat) : outcome unit * Q * nat :=
  if (S num_calls <=? n)%nat
  then (Raise exception_class, sleep_time, S num_calls)
  else (Return tt, sleep_time, S num_calls).

Definition TestException : exn := Exception "TestException".
Definition TestUnexpectedException : exn := Exception "TestUnexpectedException".

(** [TestRetryExceptionChecker.is_expected] *)
Definition test_is_expected (x : exn) : bool :=
  match x with
  | Exception name => String.eqb name "TestException"
  | _ => false
  end.

(** ** Vocabulary of the statements *)

(** Every character of [s] satisfies [p]. *)
Fixpoint all_chars (p : ascii -> bool) (s : string) : bool :=
  match s with
  | EmptyString => true
  | String c s' => p c && all_chars p s'
  end.

(** The tags a call gives explicitly: [Name] and [Description], each only
    when the argument is given and not empty. *)
Definition explicit_tags (name description : option string) : gmap string string :=
  (if truthy name then from_option (fun n => {["Name" := n]}) ∅ name else ∅)
  ∪ (if truthy description
     then from_option (fun d => {["Description" := d]}) ∅ description else ∅).

(** A provider operation that answers request number [n] (from 0) with
    entry [n] of a script, and with [fallback] after the script's end; the
    state counts the requests. *)
Definition scripted {A : Type} (script : list (outcome A)) (fallback : outcome A)
    (n : nat) : outcome A * nat :=
  (nth n script fallback, S n).

Definition provider_error (code : string) : exn :=
  EC2Error (mkEC2ResponseError "400" "Bad Request" (Some code)).

(** A provider whose every list request returns [found], whose delete
    requests follow [deletes] and whose tagging requests follow [taggings]. *)
Definition sample_conn (found : list nat) (deletes : list (outcome bool))
    (taggings : list (outcome unit)) : EC2Connection nat nat := {|
  conn_get_only_instances := fun _ => scripted [] (Return found);
  conn_get_all_volumes := fun _ => scripted [] (Return found);
  conn_get_all_snapshots := fun _ => scripted [] (Return found);
  conn_get_all_security_groups := fun _ => scripted [] (Return found);
  conn_get_all_key_pairs := fun _ => scripted [] (Return found);
  conn_get_all_subnets := fun _ => scripted [] (Return found);
  conn_delete_volume := fun _ => scripted deletes (Return true);
  conn_create_tags := fun _ _ => scripted taggings (Return tt)
|}.

(** The provider's answer to a delete request for a volume that is
    already gone. *)
Definition already_absent (x : exn) : bool :=
  match x with
  | EC2Error e => bool_decide (error_code e = Some "InvalidVolume.NotFound")
  | _ => false
  end.

(** A service object whose default tags are [Name=base] and [Owner=ops],
    held at reference 1, in front of a provider that has seen no request. *)
Definition sample_state : state nat :=
  mkState {[ 1%positive := {[ "Name" := "base"; "Owner" := "ops" ]} ]}
    1%positive 0%nat [].

(** ** More operations of the adapter *)

(** Further methods of [self.conn], with the keyword arguments the adapter
    passes: [get_all_volumes(filters=...)], [get_all_vpcs(filters=...)],
    [create_snapshot(volume_id, description)],
    [delete_security_group(group_id=...)] and
    [authorize_security_group] with keyword arguments.  [B] stands for a
    block device mapping. *)
Record EC2ConnectionMore (W R B : Type) := {
  conn_get_image : string -> W -> outcome R * W;
  conn_get_all_volumes_filtered : gmap string string -> W -> outcome (list R) * W;
  conn_get_all_vpcs : gmap string string -> W -> outcome (list R) * W;
  conn_create_snapshot : string -> option string -> W -> outcome R * W;
  conn_delete_security_group : string -> W -> outcome bool * W;
  conn_authorize_security_group : gmap string string -> W -> outcome bool * W;
  conn_create_image :
    string -> string -> option string -> bool -> option B -> W -> outcome R * W;
  conn_attach_volume : string -> string -> string -> W -> outcome bool * W
}.
Arguments conn_get_image {W R B}.
Arguments conn_get_all_volumes_filtered {W R B}.
Arguments conn_get_all_vpcs {W R B}.
Arguments conn_create_snapshot {W R B}.
Arguments conn_delete_security_group {W R B}.
Arguments conn_authorize_security_group {W R B}.
Arguments conn_create_image {W R B}.
Arguments conn_attach_volume {W R B}.

(** The state with the provider replaced, after a request that only the
    provider sees. *)
Definition with_provider {W : Type} (st : state W) (w : W) : state W :=
  mkState (heap st) (default_tags st) w (sent st).

Section AdapterMore.
Context {W R B : Type}.
Variable conn : EC2Connection W R.
Variable conn' : EC2ConnectionMore W R B.
(** The [id] attribute of a resource object. *)
Variable id_of : R -> string.

(** [@retry_boto(error_code_regexp=r'InvalidSnapshot\.NotFound')]
    [get_snapshots], whose arguments are the snapshot ids *)
Definition get_snapshots (snapshot_ids : list string) : W -> option (run W (list R)) :=
  retry_boto (literal "InvalidSnapshot.NotFound")
    default_max_retries default_initial_sleep_seconds
    (conn_get_all_snapshots conn snapshot_ids).



(** [create_snapshot(volume_id, name=None, description=None)]: the
    description goes to the provider's request, the name to [create_tags]. *)
Definition create_snapshot (volume_id : string) (name description : option string)
    (st : state W) : option (outcome R * state W) :=
  match conn_create_snapshot conn' volume_id description (provider st) with
  | (Raise x, w') => Some (Raise x, with_provider st w')
  | (Return snapshot, w') =>
      match create_tags conn (id_of snapshot) name None (with_provider st w') with
      | Some r =>
          match out r with
          | Return _ => Some (Return snapshot, world r)
          | Raise x => Some (Raise x, world r)
          end
      | None => None
      end
  end.


Definition delete_security_group_body (sg_id : string) (w : W) : outcome unit * W :=
  match conn_delete_security_group conn' sg_id w with
  | (Return ok, w') =>
      if negb ok
      then (Raise (Exception "Unknown error while deleting security group"), w')
      else (Return tt, w')
  | (Raise x, w') => (Raise x, w')
  end.

(** [@retry_boto(error_code_regexp=r'InvalidGroup\.InUse|DependencyViolation')] *)
Definition delete_security_group (sg_id : string) : W -> option (run W unit) :=
  retry_boto (Alt (literal "InvalidGroup.InUse") (literal "DependencyViolation"))
    default_max_retries default_initial_sleep_seconds
    (delete_security_group_body sg_id).

(** [@retry_boto(max_retries=20, error_code_regexp=r'InvalidParameterValue')] *)
Definition create_image (instance_id name : string) (description : option string)
    (no_reboot : bool) (block_device_mapping : option B) : W -> option (run W R) :=
  retry_boto (literal "InvalidParameterValue") 20 default_initial_sleep_seconds
    (conn_create_image conn' instance_id name description no_reboot
       block_device_mapping).

(** [@retry_boto(error_code_regexp=r'VolumeInUse')] *)
Definition attach_volume (vol_id instance_id device : string)
    : W -> option (run W bool) :=
  retry_boto (literal "VolumeInUse")
    default_max_retries default_initial_sleep_seconds
    (conn_attach_volume conn' vol_id instance_id device).

(** [get_default_vpc()]: the first default VPC, or [None]. *)
Definition get_default_vpc (w : W) : outcome (option R) * W :=
  and_then (conn_get_all_vpcs conn' {[ "is-default" := "true" ]} w)
    (fun vpcs =>
       if (0 <? List.length vpcs)%nat then Return (head vpcs) else Return None).

End AdapterMore.

(** ** More vocabulary of the statements *)

(** The sleeps of [n] retries in a row that start with the delay [s]. *)
Fixpoint sleep_schedule (s : Q) (n : nat) : list Q :=
  match n with
  | O => []
  | S n' => s :: sleep_schedule (s * 2)%Q n'
  end.

Definition Qsum (l : list Q) : Q := fold_right Qplus 0%Q l.

Fixpoint pow2 (n : nat) : Q :=
  match n with
  | O => 1%Q
  | S n' => (2 * pow2 n')%Q
  end.

Definition not_newline (c : ascii) : bool := negb (Ascii.eqb c newline).

(** A provider for the further methods: snapshots get the id of their
    volume as a number, group requests follow [groups], image requests
    follow [images]. *)
Definition sample_conn_more (images : list (outcome nat))
    (groups : list (outcome bool)) : EC2ConnectionMore nat nat unit := {|
  conn_get_image := fun _ => scripted images (Return 5%nat);
  conn_get_all_volumes_filtered := fun _ => scripted [] (Return []);
  conn_get_all_vpcs := fun _ => scripted [] (Return []);
  conn_create_snapshot := fun _ _ => scripted [] (Return 9%nat);
  conn_delete_security_group := fun _ => scripted groups (Return true);
  conn_authorize_security_group := fun _ => scripted groups (Return true);
  conn_create_image := fun _ _ _ _ _ => scripted images (Return 5%nat);
  conn_attach_volume := fun _ _ _ => scripted groups (Return true)
|}.

Definition sample_id_of (r : nat) : string :=
  match r with
  | 9%nat => "snap-9"
  | _ => "res"
  end.

(** A provider that keeps every tagging request it receives, oldest first,
    and answers each one without error; its list requests find nothing. *)
Definition recording_conn
    : EC2Connection (list (list string * gmap string string)) nat := {|
  conn_get_only_instances := fun _ w => (Return [], w);
  conn_get_all_volumes := fun _ w => (Return [], w);
  conn_get_all_snapshots := fun _ w => (Return [], w);
  conn_get_all_security_groups := fun _ w => (Return [], w);
  conn_get_all_key_pairs := fun _ w => (Return [], w);
  conn_get_all_subnets := fun _ w => (Return [], w);
  conn_delete_volume := fun _ w => (Return true, w);
  conn_create_tags := fun ids tags w => (Return tt, (w ++ [(ids, tags)])%list)
|}.

(** The service object of [sample_state] in front of the recording
    provider. *)
Definition recording_state : state (list (list string * gmap string string)) :=
  mkState {[ 1%positive := {[ "Name" := "base"; "Owner" := "ops" ]} ]}
    1%positive [] [].

(** ** Validators: facts *)

Lemma star_cls_dollar (p : ascii -> bool) (s : string) :
  star_k (Cls p) s (fun s' => at_end s' && true) = true <->
  all_chars p s = true \/
  exists q, s = q ++ String newline EmptyString /\ all_chars p q = true.
Proof.
  induction s as [|c s IH]; simpl.
  - split; [now left | reflexivity].
  - rewrite orb_true_iff, andb_true_iff, IH. split.
    + intros [[Hc [Hs | (q & -> & Hq)]] | He].
      * left. now rewrite Hc, Hs.
      * right. exists (String c q). simpl. now rewrite Hc, Hq.
      * right. exists EmptyString. simpl.
        destruct s; simpl in He; [|discriminate].
        rewrite andb_true_r in He. apply Ascii.eqb_eq in He. now subst.
    + intros [H | (q & Hq & Hall)].
      * apply andb_true_iff in H as [Hc Hs]. left. split; [easy | now left].
      * destruct q as [|d q]; simpl in *.
        -- injection Hq as -> ->. right. now rewrite Ascii.eqb_refl.
        -- injection Hq as -> ->. apply andb_true_iff in Hall as [Hc Hs].
           left. split; [easy|]. right. now exists q.
Qed.

(** What [re.match] of the image-name pattern accepts: a non-empty run of
    allowed characters, optionally followed by one final newline. *)
Lemma image_name_re_spec (s : string) :
  re_match image_name_re s = true <->
  s <> EmptyString /\
  (all_chars image_name_char s = true \/
   exists q, q <> EmptyString /\ s = q ++ String newline EmptyString
             /\ all_chars image_name_char q = true).
Proof.
  unfold re_match, image_name_re. simpl. destruct s as [|c s]; simpl.
  - split; [discriminate | now intros [? _]].
  - rewrite andb_true_iff, star_cls_dollar. split.
    + intros [Hc [Hs | (q & -> & Hq)]]; (split; [discriminate|]).
      * left. now rewrite Hc, Hs.
      * right. exists (String c q). simpl. rewrite Hc, Hq. now repeat split.
    + intros [_ [H | (q & Hne & Hq & Hall)]].
      * apply andb_true_iff in H as [Hc Hs]. now split; [|left].
      * destruct q as [|d q]; [easy|]. simpl in *. injection Hq as -> ->.
        apply andb_true_iff in Hall as [Hc Hs]. split; [easy|]. right. now exists q.
Qed.

Lemma validate_image_name_total (name : string) :
  validate_image_name name = Return name \/
  exists msg, validate_image_name name = Raise (ValidationError msg).
Proof.
  unfold validate_image_name.
  destruct (negb _); [right; eauto|].
  destruct (negb _); [right; eauto | now left].
Qed.

(** [validate_image_name] returns the name exactly when its length is
    between 3 and 128 and it is a run of allowed characters, optionally
    followed by one final newline. *)
Lemma validate_image_name_spec (name : string) :
  validate_image_name name = Return name <->
  (3 <= String.length name <= 128)%nat /\
  (all_chars image_name_char name = true \/
   exists q, name = q ++ String newline EmptyString
             /\ all_chars image_name_char q = true).
Proof.
  unfold validate_image_name.
  destruct (re_match image_name_re name) eqn:Hre; cbn [negb].
  - apply image_name_re_spec in Hre as [Hne Hre].
    assert (Hshape : all_chars image_name_char name = true \/
                     exists q, name = q ++ String newline EmptyString
                               /\ all_chars image_name_char q = true).
    { destruct Hre as [H | (q & _ & H1 & H2)]; [now left | right; eauto]. }
    assert (Ht : truthy (Some name) = true) by (now destruct name).
    rewrite Ht. cbn [andb].
    destruct (Nat.leb_spec 3 (String.length name)) as [Hlo | Hlo];
      destruct (Nat.leb_spec (String.length name) 128) as [Hhi | Hhi];
      cbn [andb negb];
      (split; [intros Hret; first [discriminate | split; [lia | exact Hshape]]
              | intros [Hlen _]; first [reflexivity | lia]]).
  - assert (Hno : ~ ((3 <= String.length name <= 128)%nat /\
              (all_chars image_name_char name = true \/
               exists q, name = q ++ String newline EmptyString
                         /\ all_chars image_name_char q = true))).
    { intros [Hlen Hshape].
      assert (re_match image_name_re name = true); [|congruence].
      apply image_name_re_spec. split.
      - intros ->. simpl in Hlen. lia.
      - destruct Hshape as [H | (q & -> & Hq)]; [now left|].
        right. exists q. repeat split; [|exact Hq].
        intros ->. simpl in Hlen. lia. }
    destruct (negb _); (split; [discriminate | intros H; now destruct Hno]).
Qed.

(** A name made of allowed characters only is accepted exactly when its
    length is between 3 and 128. *)
Lemma validate_image_name_allowed (name : string) :
  all_chars image_name_char name = true ->
  (validate_image_name name = Return name <-> (3 <= String.length name <= 128)%nat).
Proof.
  intros Hall. rewrite validate_image_name_spec. split; [now intros [? _]|].
  intros H. split; [exact H | now left].
Qed.

(** C9: the name [abc] followed by a newline has length 4 and ends in a
    character outside the allowed set, yet [validate_image_name] returns it
    unchanged instead of raising [ValidationError]. *)
Theorem validate_image_name_trailing_newline :
  image_name_char newline = false /\
  String.length ("abc" ++ String newline EmptyString) = 4%nat /\
  validate_image_name ("abc" ++ String newline EmptyString)
  = Return ("abc" ++ String newline EmptyString).
Proof. repeat split. Qed.

(** C8: [validate_tag_key] returns the key unchanged exactly when it has at
    most 127 characters and does not start with [aws:], and raises
    [ValidationError] exactly when it is longer or starts with [aws:];
    [validate_tag_value] does the same with the bound 255. *)
Theorem validate_tag_roundtrip (s : string) :
  (validate_tag_key s = Return s <->
     (String.length s <= 127)%nat /\ String.prefix "aws:" s = false) /\
  ((exists msg, validate_tag_key s = Raise (ValidationError msg)) <->
     (127 < String.length s)%nat \/ String.prefix "aws:" s = true) /\
  (validate_tag_value s = Return s <->
     (String.length s <= 255)%nat /\ String.prefix "aws:" s = false) /\
  ((exists msg, validate_tag_value s = Raise (ValidationError msg)) <->
     (255 < String.length s)%nat \/ String.prefix "aws:" s = true).
Proof.
  unfold validate_tag_key, validate_tag_value.
  destruct (Nat.ltb_spec 127 (String.length s)) as [H127 | H127];
    destruct (Nat.ltb_spec 255 (String.length s)) as [H255 | H255];
    destruct (String.prefix "aws:" s) eqn:Hp;
    repeat split; intros;
    repeat match goal with
           | H : _ /\ _ |- _ => destruct H
           | H : _ \/ _ |- _ => destruct H
           | H : exists _, _ |- _ => destruct H
           end;
    first [ discriminate | lia | reflexivity
          | left; lia | right; reflexivity | eexists; reflexivity ].
Qed.

(** ** [retry_boto]: facts *)

Section RetryBotoFacts.
Context {W A : Type}.
Variable error_code_regexp : regex.
Variable max_retries : Z.
Variable func : W -> outcome A * W.

Local Abbreviation loop := (retry_loop error_code_regexp max_retries func).

Lemma retryable_unrecognised (x : exn) :
  retryable error_code_regexp x = true ->
  unrecognised error_code_regexp x = false.
Proof.
  destruct x as [e | | |]; simpl; try discriminate.
  destruct (error_code e); [|discriminate]. now intros ->.
Qed.

(** One iteration that ends in [sleep] and goes round again. *)
Lemma retry_loop_again fuel retries s w c sl x :
  fst (func w) = Raise x ->
  retryable error_code_regexp x = true ->
  (retries < max_retries)%Z ->
  loop (S fuel) retries s w c sl
  = loop fuel (retries + 1)%Z (s * 2)%Q (snd (func w)) (S c) (sl ++ [s]).
Proof.
  intros Hx Hr Hlt. simpl. destruct (func w) as [r w']. simpl in *. subst r.
  destruct x as [e | | |]; try discriminate Hr. simpl in Hr.
  destruct (Z.geb_spec retries max_retries); [lia|].
  destruct (error_code e); [|discriminate]. now rewrite Hr.
Qed.

(** An iteration in which the wrapped function returns. *)
Lemma retry_loop_return fuel retries s w c sl v :
  fst (func w) = Return v ->
  loop (S fuel) retries s w c sl = Some (mkRun (Return v) (snd (func w)) (S c) sl).
Proof.
  intros Hv. simpl. destruct (func w) as [r w']. simpl in *. now subst r.
Qed.

(** An iteration in which the wrapped function raises an error that the
    pattern does not match or the [except] clause does not catch. *)
Lemma retry_loop_unrecognised fuel retries s w c sl x :
  fst (func w) = Raise x ->
  unrecognised error_code_regexp x = true ->
  loop (S fuel) retries s w c sl = Some (mkRun (Raise x) (snd (func w)) (S c) sl).
Proof.
  intros Hx Hu. simpl. destruct (func w) as [r w']. simpl in *. subst r.
  destruct x as [e | | |]; try reflexivity. simpl in Hu.
  destruct (retries >=? max_retries)%Z; [reflexivity|].
  destruct (error_code e); [|discriminate].
  destruct (re_match _ _); [discriminate | reflexivity].
Qed.

(** An iteration in which the wrapped function raises an
    [EC2ResponseError] and no retry is left. *)
Lemma retry_loop_exhausted fuel retries s w c sl e :
  fst (func w) = Raise (EC2Error e) ->
  (max_retries <= retries)%Z ->
  loop (S fuel) retries s w c sl
  = Some (mkRun (Raise (EC2Error e)) (snd (func w)) (S c) sl).
Proof.
  intros He Hge. simpl. destruct (func w) as [r w']. simpl in *. subst r.
  destruct (Z.geb_spec retries max_retries); [reflexivity | lia].
Qed.

(** [k] retryable failures in a row take the loop through [k] iterations. *)
Lemma retry_loop_prefix (k : nat) : forall fuel retries s w c sl,
  (forall i, (i < k)%nat ->
     exists x, invocation func i w = Raise x
               /\ retryable error_code_regexp x = true) ->
  (retries + Z.of_nat k <= max_retries)%Z ->
  exists s' sl',
    List.length sl' = (List.length sl + k)%nat /\
    loop (k + fuel)%nat retries s w c sl
    = loop fuel (retries + Z.of_nat k)%Z s' (world_before func k w) (c + k)%nat sl'.
Proof.
  induction k as [|k IH]; intros fuel retries s w c sl Hfail Hle.
  - exists s, sl. simpl. rewrite Z.add_0_r, !Nat.add_0_r. now split.
  - destruct (Hfail 0%nat) as (x & Hx & Hr); [lia|].
    unfold invocation in Hx. simpl in Hx.
    replace (S k + fuel)%nat with (S (k + fuel)) by lia.
    rewrite (retry_loop_again _ _ _ _ _ _ x Hx Hr) by lia.
    destruct (IH fuel (retries + 1)%Z (s * 2)%Q (snd (func w)) (S c) (sl ++ [s])%list)
      as (s' & sl' & Hlen & Heq).
    + intros i Hi. apply (Hfail (S i)). lia.
    + lia.
    + exists s', sl'. split.
      * rewrite Hlen, length_app. simpl. lia.
      * rewrite Heq. simpl. f_equal; lia.
Qed.

(** The loop ends within [max_retries - retries + 1] iterations. *)
Lemma retry_loop_total (fuel : nat) : forall retries s w c sl,
  (0 < fuel)%nat ->
  (max_retries - retries < Z.of_nat fuel)%Z ->
  exists r, loop fuel retries s w c sl = Some r.
Proof.
  induction fuel as [|fuel IH]; intros retries s w c sl Hpos Hlt; [lia|].
  simpl. destruct (func w) as [[v | x] w']; [eauto|].
  destruct x as [e | | |]; eauto.
  destruct (Z.geb_spec retries max_retries); [eauto|].
  destruct (error_code e); [|eauto].
  destruct (re_match _ _); [|eauto].
  apply IH; lia.
Qed.

(** Every run invokes the wrapped function at least once. *)
Lemma retry_loop_calls (fuel : nat) : forall retries s w c sl r,
  loop fuel retries s w c sl = Some r -> (c < calls r)%nat.
Proof.
  induction fuel as [|fuel IH]; intros retries s w c sl r; [discriminate|].
  simpl. destruct (func w) as [[v | x] w'].
  { intros [= <-]. simpl. lia. }
  destruct x as [e | | |]; try (intros [= <-]; simpl; lia).
  destruct (retries >=? max_retries)%Z; [intros [= <-]; simpl; lia|].
  destruct (error_code e); [|intros [= <-]; simpl; lia].
  destruct (re_match _ _); [|intros [= <-]; simpl; lia].
  intros H. apply IH in H. lia.
Qed.

(** A property of the state that every invocation of the wrapped function
    carries from one invocation count to the next holds when the loop
    ends. *)
Lemma retry_loop_invariant (I : nat -> W -> Prop) :
  (forall n w, I n w -> I (S n) (snd (func w))) ->
  forall fuel retries s w c sl r,
    I c w -> loop fuel retries s w c sl = Some r -> I (calls r) (world r).
Proof.
  intros Hstep. induction fuel as [|fuel IH]; intros retries s w c sl r Hc;
    [discriminate|].
  simpl. specialize (Hstep c w Hc). destruct (func w) as [[v | x] w'].
  { now intros [= <-]. }
  destruct x as [e | | |]; try (now intros [= <-]).
  destruct (retries >=? max_retries)%Z; [now intros [= <-]|].
  destruct (error_code e); [|now intros [= <-]].
  destruct (re_match _ _); [|now intros [= <-]].
  now apply IH.
Qed.

(** When the loop has made [k + 1] invocations with [k] retries left at its
    start and raises, it raises what the last invocation raised. *)
Lemma retry_loop_last_error (k : nat) : forall fuel retries s w c sl r x,
  (retries + Z.of_nat k = max_retries)%Z ->
  loop fuel retries s w c sl = Some r ->
  calls r = (c + S k)%nat ->
  out r = Raise x ->
  invocation func k w = Raise x.
Proof.
  induction k as [|k IH]; intros fuel retries s w c sl r x Hk Hrun Hcalls Hout;
    (destruct fuel as [|fuel]; [discriminate|]); simpl in Hrun;
    unfold invocation; simpl; destruct (func w) as [[v | y] w'] eqn:Hf; simpl.
  - injection Hrun as <-. discriminate.
  - destruct y as [e | | |]; try (injection Hrun as <-; exact Hout).
    destruct (Z.geb_spec retries max_retries); [injection Hrun as <-; exact Hout | lia].
  - injection Hrun as <-. simpl in Hcalls. lia.
  - destruct y as [e | | |]; try (injection Hrun as <-; simpl in Hcalls; lia).
    destruct (retries >=? max_retries)%Z; [injection Hrun as <-; simpl in Hcalls; lia|].
    destruct (error_code e); [|injection Hrun as <-; simpl in Hcalls; lia].
    destruct (re_match _ _); [|injection Hrun as <-; simpl in Hcalls; lia].
    apply (IH _ _ _ _ _ _ _ x) in Hrun; [| lia | lia | exact Hout].
    exact Hrun.
Qed.

End RetryBotoFacts.

Lemma world_before_S {W A : Type} (func : W -> outcome A * W) (n : nat) :
  forall w, world_before func (S n) w = snd (func (world_before func n w)).
Proof.
  induction n as [|n IH]; intros w; [reflexivity|].
  change (world_before func (S (S n)) w)
    with (world_before func (S n) (snd (func w))).
  now rewrite IH.
Qed.

(** [retry_boto] always ends: the fuel it gives its loop is enough. *)
Lemma retry_boto_total {W A : Type} (error_code_regexp : regex) (max_retries : Z)
    (initial_sleep_seconds : Q) (func : W -> outcome A * W) (w : W) :
  exists r,
    retry_boto error_code_regexp max_retries initial_sleep_seconds func w = Some r.
Proof. apply retry_loop_total; lia. Qed.

(** A run that made [N + 1] invocations under the bound [N] and raised,
    raised what invocation [N + 1] raised. *)
Lemma retry_boto_last_error {W A : Type} (error_code_regexp : regex)
    (initial_sleep_seconds : Q) (func : W -> outcome A * W) (N : nat) (w : W)
    (r : run W A) (x : exn) :
  retry_boto error_code_regexp (Z.of_nat N) initial_sleep_seconds func w = Some r ->
  calls r = S N ->
  out r = Raise x ->
  invocation func N w = Raise x.
Proof.
  intros Hrun Hcalls Hout.
  apply (retry_loop_last_error _ _ _ N _ _ _ _ _ _ r x) in Hrun; auto; lia.
Qed.

(** C1: with [max_retries = N], when the wrapped function raises a
    retryable error on each of its first [N] invocations and returns [v] on
    invocation [N + 1], the decorated function returns [v], has invoked the
    wrapped function exactly [N + 1] times and has slept [N] times. *)
Theorem retry_boto_succeeds_after_N_failures {W A : Type}
    (error_code_regexp : regex) (initial_sleep_seconds : Q)
    (func : W -> outcome A * W) (N : nat) (w : W) (v : A) :
  (forall i, (i < N)%nat ->
     exists x, invocation func i w = Raise x
               /\ retryable error_code_regexp x = true) ->
  invocation func N w = Return v ->
  exists r,
    retry_boto error_code_regexp (Z.of_nat N) initial_sleep_seconds func w = Some r
    /\ out r = Return v
    /\ calls r = S N
    /\ List.length (slept r) = N
    /\ world r = world_before func (S N) w.
Proof.
  intros Hfail Hok. rewrite world_before_S. unfold retry_boto. rewrite Nat2Z.id.
  destruct (retry_loop_prefix error_code_regexp (Z.of_nat N) func N 1%nat 0%Z
              initial_sleep_seconds w 0%nat [] Hfail) as (s' & sl' & Hlen & Heq);
    [lia|].
  replace (S N) with (N + 1)%nat by lia. rewrite Heq.
  rewrite (retry_loop_return _ _ _ _ _ _ _ _ _ v Hok).
  eexists. split; [reflexivity|]. cbn [out calls slept world].
  simpl in Hlen. repeat split; lia.
Qed.

Lemma retry_boto_succeeds_after_N_failures_witness :
  exists r,
    retry_boto (literal "VolumeInUse") (Z.of_nat 2) (1 # 4)
      (scripted [Raise (provider_error "VolumeInUse");
                 Raise (provider_error "VolumeInUse")] (Return 7%nat)) 0%nat
    = Some r
    /\ out r = Return 7%nat
    /\ calls r = 3%nat
    /\ List.length (slept r) = 2%nat
    /\ world r = 3%nat.
Proof.
  apply (retry_boto_succeeds_after_N_failures (literal "VolumeInUse") (1 # 4)
           (scripted [Raise (provider_error "VolumeInUse");
                      Raise (provider_error "VolumeInUse")] (Return 7%nat))
           2 0%nat 7%nat).
  - intros [|[|i]] Hi; [eexists; split; reflexivity .. | lia].
  - reflexivity.
Defined.

(** When the wrapped function raises an [EC2ResponseError] that has an
    error code which the pattern does not match, or an exception of another
    kind, the decorated function raises that same error after exactly one
    invocation and without sleeping, whatever [max_retries] is. *)
Theorem retry_boto_unrecognised_error_raised_at_once {W A : Type}
    (error_code_regexp : regex) (max_retries : Z) (initial_sleep_seconds : Q)
    (func : W -> outcome A * W) (w : W) (x : exn) :
  fst (func w) = Raise x ->
  unrecognised error_code_regexp x = true ->
  retry_boto error_code_regexp max_retries initial_sleep_seconds func w
  = Some (mkRun (Raise x) (snd (func w)) 1 []).
Proof.
  intros Hx Hu. unfold retry_boto. now apply retry_loop_unrecognised.
Qed.

Lemma retry_boto_unrecognised_error_raised_at_once_witness :
  retry_boto (literal "VolumeInUse") 5 (1 # 4)
    (scripted [] (Raise (A := nat) (provider_error "AuthFailure"))) 0%nat
  = Some (mkRun (Raise (provider_error "AuthFailure")) 1%nat 1 [])
  /\ retry_boto (literal "VolumeInUse") 5 (1 # 4)
       (scripted [] (Raise (A := nat) (Exception "unknown"))) 0%nat
     = Some (mkRun (Raise (Exception "unknown")) 1%nat 1 []).
Proof.
  split.
  - apply (retry_boto_unrecognised_error_raised_at_once (literal "VolumeInUse") 5
             (1 # 4) (scripted [] (Raise (A := nat) (provider_error "AuthFailure")))
             0%nat (provider_error "AuthFailure")); reflexivity.
  - apply (retry_boto_unrecognised_error_raised_at_once (literal "VolumeInUse") 5
             (1 # 4) (scripted [] (Raise (A := nat) (Exception "unknown")))
             0%nat (Exception "unknown")); reflexivity.
Defined.

(** C4: with [max_retries = N], when the wrapped function raises a
    retryable error on each of its first [N] invocations and raises an
    [EC2ResponseError] [e] on invocation [N + 1], the decorated function
    raises [e] itself, the value the last invocation raised, after exactly
    [N + 1] invocations. *)
Theorem retry_boto_exhaustion_reraises_last_error {W A : Type}
    (error_code_regexp : regex) (initial_sleep_seconds : Q)
    (func : W -> outcome A * W) (N : nat) (w : W) (e : EC2ResponseError) :
  (forall i, (i < N)%nat ->
     exists x, invocation func i w = Raise x
               /\ retryable error_code_regexp x = true) ->
  invocation func N w = Raise (EC2Error e) ->
  exists r,
    retry_boto error_code_regexp (Z.of_nat N) initial_sleep_seconds func w = Some r
    /\ out r = Raise (EC2Error e)
    /\ calls r = S N
    /\ List.length (slept r) = N.
Proof.
  intros Hfail Hlast. unfold retry_boto. rewrite Nat2Z.id.
  destruct (retry_loop_prefix error_code_regexp (Z.of_nat N) func N 1%nat 0%Z
              initial_sleep_seconds w 0%nat [] Hfail) as (s' & sl' & Hlen & Heq);
    [lia|].
  replace (S N) with (N + 1)%nat by lia. rewrite Heq.
  rewrite (retry_loop_exhausted _ _ _ _ _ _ _ _ _ e Hlast) by lia.
  eexists. split; [reflexivity|]. cbn [out calls slept world].
  simpl in Hlen. repeat split; lia.
Qed.

Lemma retry_boto_exhaustion_reraises_last_error_witness :
  exists r,
    retry_boto (literal "VolumeInUse") (Z.of_nat 2) (1 # 4)
      (scripted (A := nat) [] (Raise (provider_error "VolumeInUse"))) 0%nat
    = Some r
    /\ out r = Raise (provider_error "VolumeInUse")
    /\ calls r = 3%nat
    /\ List.length (slept r) = 2%nat.
Proof.
  apply (retry_boto_exhaustion_reraises_last_error (literal "VolumeInUse") (1 # 4)
           (scripted (A := nat) [] (Raise (provider_error "VolumeInUse")))
           2 0%nat (mkEC2ResponseError "400" "Bad Request" (Some "VolumeInUse"))).
  - intros [|[|i]] Hi; [eexists; split; reflexivity .. | lia].
  - reflexivity.
Defined.

(** ** The adapter: facts *)

Lemma _get_first_element_spec {R : Type} (l : list R) (error_status : string) :
  match l with
  | x :: _ => _get_first_element l error_status = Return x
  | [] =>
      exists e, _get_first_element l error_status = Raise (EC2Error e)
                /\ status e = error_status
  end.
Proof. destruct l; [eexists; split|]; reflexivity. Qed.

(** A decorated lookup whose provider returns a non-empty list returns the
    first element after one request. *)
Lemma retry_boto_first_element {W R : Type} (error_code_regexp : regex)
    (list_request : W -> outcome (list R) * W) (error_status : string)
    (w w' : W) (x : R) (rest : list R) :
  list_request w = (Return (x :: rest), w') ->
  retry_boto error_code_regexp default_max_retries default_initial_sleep_seconds
    (fun w0 => and_then (list_request w0)
                 (fun l => _get_first_element l error_status)) w
  = Some (mkRun (Return x) w' 1 []).
Proof.
  intros Hl. unfold retry_boto.
  rewrite (retry_loop_return _ _ _ _ _ _ _ _ _ x) by now rewrite Hl.
  now rewrite Hl.
Qed.

Lemma get_instance_first_element {W R : Type} (conn : EC2Connection W R)
    (instance_id : string) (w w' : W) (x : R) (rest : list R) :
  conn_get_only_instances conn [instance_id] w = (Return (x :: rest), w') ->
  get_instance conn instance_id w = Some (mkRun (Return x) w' 1 []).
Proof. apply retry_boto_first_element. Qed.

Lemma get_volume_first_element {W R : Type} (conn : EC2Connection W R)
    (volume_id : string) (w w' : W) (x : R) (rest : list R) :
  conn_get_all_volumes conn [volume_id] w = (Return (x :: rest), w') ->
  get_volume conn volume_id w = Some (mkRun (Return x) w' 1 []).
Proof. apply retry_boto_first_element. Qed.

Lemma get_snapshot_first_element {W R : Type} (conn : EC2Connection W R)
    (snapshot_id : string) (w w' : W) (x : R) (rest : list R) :
  conn_get_all_snapshots conn [snapshot_id] w = (Return (x :: rest), w') ->
  get_snapshot conn snapshot_id w = Some (mkRun (Return x) w' 1 []).
Proof. apply retry_boto_first_element. Qed.

(** An undecorated lookup whose provider returns the empty list raises the
    error that [_get_first_element] builds. *)
Lemma get_subnet_empty {W R : Type} (conn : EC2Connection W R)
    (subnet_id : string) (w w' : W) :
  conn_get_all_subnets conn [subnet_id] w = (Return [], w') ->
  get_subnet conn subnet_id w
  = (Raise (EC2Error (mkEC2ResponseError "InvalidSubnetID.NotFound"
                        "AWS API returned an empty response" None)), w').
Proof. intros Hl. unfold get_subnet. now rewrite Hl. Qed.

(** A decorated lookup whose provider returns the empty list: the error
    that [_get_first_element] builds has no [error_code], and the
    decorator's [re.match] on it raises [TypeError]. *)
Example get_instance_empty :
  get_instance (sample_conn [] [] []) "i-1" 0%nat
  = Some (mkRun (Raise (TypeError "expected string or buffer")) 1%nat 1 []).
Proof. reflexivity. Qed.

(** With [retry=True], [get_security_group] never returns a resource. *)
Lemma get_security_group_retry_result {W R : Type} (conn : EC2Connection W R)
    (sg_id : string) (w w' : W) (v : option R) :
  get_security_group conn sg_id true w = Some (Return v, w') -> v = None.
Proof.
  unfold get_security_group. destruct (retry_boto _ _ _ _ w) as [r|]; [|discriminate].
  destruct (out r); now intros [= <- _].
Qed.

(** C3: when the provider returns the one-element list [[42]] for the
    group id, [get_security_group] with [retry=True], its default, returns
    [None] and not the element; with [retry=False] it returns the element. *)
Theorem get_security_group_retry_returns_None :
  get_security_group (sample_conn [42%nat] [] []) "sg-1" true 0%nat
  = Some (Return None, 1%nat)
  /\ get_security_group (sample_conn [42%nat] [] []) "sg-1" false 0%nat
     = Some (Return (Some 42%nat), 1%nat).
Proof. split; reflexivity. Qed.

Lemma set_if_truthy_other (l l' : loc) (key : string) (v : option string)
    (h : gmap loc (gmap string string)) :
  l ≠ l' -> set_if_truthy l key v h !! l' = h !! l'.
Proof.
  intros Hne. unfold set_if_truthy. destruct v as [s|]; [|reflexivity].
  destruct (truthy (Some s)); [|reflexivity]. now rewrite lookup_alter_ne.
Qed.

Lemma set_if_truthy_same (l : loc) (key : string) (v : option string)
    (h : gmap loc (gmap string string)) (d : gmap string string) :
  h !! l = Some d ->
  set_if_truthy l key v h !! l
  = Some (if truthy v then from_option (fun s => <[key := s]> d) d v else d).
Proof.
  intros Hd. unfold set_if_truthy. destruct v as [s|]; [|now rewrite Hd].
  destruct (truthy (Some s)); [|now rewrite Hd].
  now rewrite lookup_alter_eq, Hd.
Qed.

(** The two conditional assignments on a copy of the defaults produce the
    explicit tags laid over the defaults. *)
Lemma merged_tags_union (name description : option string)
    (defaults : gmap string string) :
  (if truthy description
   then from_option (fun s => <["Description" := s]>
          (if truthy name
           then from_option (fun s => <["Name" := s]> defaults) defaults name
           else defaults))
          (if truthy name
           then from_option (fun s => <["Name" := s]> defaults) defaults name
           else defaults) description
   else if truthy name
        then from_option (fun s => <["Name" := s]> defaults) defaults name
        else defaults)
  = explicit_tags name description ∪ defaults.
Proof.
  unfold explicit_tags.
  destruct name as [[|a n]|], description as [[|b d]|]; cbn [truthy from_option];
    apply map_eq; intros k;
    repeat rewrite ?lookup_union, ?lookup_insert, ?lookup_singleton, ?lookup_empty;
    repeat case_decide; subst; try discriminate;
    repeat match goal with
           | |- context [defaults !! ?i] => destruct (defaults !! i)
           end; reflexivity.
Qed.

Lemma explicit_tags_lookup (name description : option string)
    (defaults : gmap string string) :
  (truthy name = true -> (explicit_tags name description ∪ defaults) !! "Name" = name)
  /\ (truthy description = true ->
      (explicit_tags name description ∪ defaults) !! "Description" = description)
  /\ (forall k, k ≠ "Name" -> k ≠ "Description" ->
      (explicit_tags name description ∪ defaults) !! k = defaults !! k).
Proof.
  unfold explicit_tags.
  destruct name as [[|a n]|], description as [[|b d]|]; cbn [truthy from_option];
    repeat split; try discriminate; intros;
    repeat rewrite ?lookup_union, ?lookup_insert, ?lookup_singleton, ?lookup_empty;
    repeat case_decide; subst; try discriminate; try congruence;
    repeat match goal with
           | |- context [defaults !! ?i] => destruct (defaults !! i)
           end; reflexivity.
Qed.

(** One execution of the body of [create_tags]. *)
Lemma create_tags_body_spec {W R : Type} (conn : EC2Connection W R)
    (resource_id : string) (name description : option string) (st : state W)
    (defaults : gmap string string) :
  heap st !! default_tags st = Some defaults ->
  default_tags (snd (create_tags_body conn resource_id name description st))
  = default_tags st
  /\ sent (snd (create_tags_body conn resource_id name description st))
     = (sent st ++ [([resource_id], explicit_tags name description ∪ defaults)])%list
  /\ (forall l d, heap st !! l = Some d ->
        heap (snd (create_tags_body conn resource_id name description st)) !! l
        = Some d).
Proof.
  intros Hd. unfold create_tags_body. rewrite Hd. cbn [default from_option fst snd].
  set (tags := fresh (dom (heap st))).
  assert (Hfresh : heap st !! tags = None).
  { apply not_elem_of_dom. apply is_fresh. }
  destruct (conn_create_tags _ _ _ _) as [r w']. cbn [snd default_tags sent heap].
  split; [reflexivity|]. split.
  - do 2 f_equal. f_equal.
    rewrite (set_if_truthy_same _ _ _ _ _
               (set_if_truthy_same _ _ _ _ _ (lookup_insert_eq _ _ _))).
    cbn [default from_option]. apply merged_tags_union.
  - intros l d Hl. assert (tags ≠ l) by congruence.
    now rewrite !set_if_truthy_other, lookup_insert_ne.
Qed.

(** C10: a call of [create_tags] leaves [self.default_tags] pointing at the
    same dictionary with the same items, and leaves every dictionary that
    existed before the call as it was: the [Name] and [Description] of the
    call are written to a new dictionary only. *)
Theorem create_tags_preserves_default_tags {W R : Type} (conn : EC2Connection W R)
    (resource_id : string) (name description : option string) (st : state W)
    (defaults : gmap string string) :
  heap st !! default_tags st = Some defaults ->
  exists r,
    create_tags conn resource_id name description st = Some r
    /\ default_tags (world r) = default_tags st
    /\ heap (world r) !! default_tags (world r) = Some defaults
    /\ (forall l d, heap st !! l = Some d -> heap (world r) !! l = Some d).
Proof.
  intros Hd.
  destruct (retry_boto_total (Cat (Star Dot) (literal ".NotFound"))
              default_max_retries default_initial_sleep_seconds
              (create_tags_body conn resource_id name description) st) as [r Hr].
  exists r. split; [exact Hr|].
  apply (retry_loop_invariant _ _ _
           (fun _ s => default_tags s = default_tags st
                       /\ (forall l d, heap st !! l = Some d -> heap s !! l = Some d)))
    in Hr.
  - destruct Hr as [Hdt Hframe]. split; [exact Hdt|]. split; [|exact Hframe].
    rewrite Hdt. now apply Hframe.
  - intros _ s (Hdt & Hframe).
    destruct (create_tags_body_spec conn resource_id name description s defaults)
      as (Hdt' & _ & Hh'); [rewrite Hdt; now apply Hframe|].
    split; [congruence|]. intros l d Hl. apply Hh'. now apply Hframe.
  - now split.
Qed.

Lemma create_tags_preserves_default_tags_witness :
  exists r,
    create_tags (sample_conn [] [] [Raise (provider_error "InvalidSnapshot.NotFound")])
      "snap-1" (Some "encrypted") (Some "a snapshot") sample_state = Some r
    /\ default_tags (world r) = default_tags sample_state
    /\ heap (world r) !! default_tags (world r)
       = Some {[ "Name" := "base"; "Owner" := "ops" ]}
    /\ (forall l d, heap sample_state !! l = Some d -> heap (world r) !! l = Some d).
Proof.
  apply (create_tags_preserves_default_tags
           (sample_conn [] [] [Raise (provider_error "InvalidSnapshot.NotFound")])
           "snap-1" (Some "encrypted") (Some "a snapshot") sample_state
           {[ "Name" := "base"; "Owner" := "ops" ]}).
  reflexivity.
Defined.

(** [__init__] leaves [self.default_tags] pointing at a dictionary of the
    store, which is the caller's own dictionary when that is not empty. *)
Lemma AWSService_init_default_tags {W : Type} (default_tags0 : option loc)
    (h : gmap loc (gmap string string)) (w : W) :
  is_Some (heap (AWSService_init default_tags0 h w)
             !! default_tags (AWSService_init default_tags0 h w))
  /\ (forall l d, default_tags0 = Some l -> h !! l = Some d -> d ≠ ∅ ->
        default_tags (AWSService_init default_tags0 h w) = l
        /\ heap (AWSService_init default_tags0 h w) = h).
Proof.
  unfold AWSService_init. split.
  - destruct default_tags0 as [l|]; [destruct (h !! l) as [d|] eqn:Hl|];
      [destruct (decide (d = ∅))|..]; cbn [heap default_tags];
      rewrite ?lookup_insert_eq; eauto.
  - intros l d -> Hl Hne. rewrite Hl. now destruct (decide (d = ∅)).
Qed.

(** ** The time-bounded retry: facts *)

(** Every sleep of a run is entered while the elapsed time is within the
    timeout. *)
Lemma timed_loop_sleeps_before_deadline {W A : Type} (is_expected : exn -> bool)
    (timeout : Q) (function : W -> outcome A * Q * W) (fuel : nat) :
  forall start_time s now w c sl r,
    Forall (fun e => (fst e <= timeout)%Q) sl ->
    timed_loop is_expected timeout function fuel start_time s now w c sl = Some r ->
    Forall (fun e => (fst e <= timeout)%Q) (t_slept r).
Proof.
  induction fuel as [|fuel IH]; intros start_time s now w c sl r Hsl; [discriminate|].
  simpl. destruct (function w) as [[[v | x] d] w'].
  { now intros [= <-]. }
  destruct (is_expected x); simpl; [|now intros [= <-]].
  destruct (Qle_bool (now + d - start_time) timeout) eqn:Hle; simpl;
    [|now intros [= <-]].
  apply IH. apply Forall_app. split; [exact Hsl|].
  constructor; [|constructor]. simpl. now apply Qle_bool_iff.
Qed.

Lemma timed_retry_sleeps_before_deadline {W A : Type} (is_expected : exn -> bool)
    (timeout initial_sleep_seconds : Q) (function : W -> outcome A * Q * W)
    (fuel : nat) (now : Q) (w : W) (r : timed_run W A) :
  timed_retry is_expected timeout initial_sleep_seconds function fuel now w = Some r ->
  Forall (fun e => (fst e <= timeout)%Q) (t_slept r).
Proof. apply timed_loop_sleeps_before_deadline. constructor. Qed.

(** C5: in a time-bounded retry with timeout [T], when every attempt takes
    longer than [T] and the first attempt raises [x], the engine raises [x]
    after exactly one attempt and without sleeping; the attempt has run for
    its whole duration, which ends after the deadline. *)
Theorem timed_retry_one_attempt_past_deadline {W A : Type} (is_expected : exn -> bool)
    (timeout initial_sleep_seconds : Q) (function : W -> outcome A * Q * W)
    (fuel : nat) (now : Q) (w : W) (x : exn) :
  (forall w0, (timeout < snd (fst (function w0)))%Q) ->
  fst (fst (function w)) = Raise x ->
  timed_retry is_expected timeout initial_sleep_seconds function (S fuel) now w
  = Some (mkTimedRun (Raise x) (snd (function w))
            (now + snd (fst (function w)))%Q 1 [])
  /\ (now + timeout < now + snd (fst (function w)))%Q.
Proof.
  intros Hslow Hx. unfold timed_retry. simpl. specialize (Hslow w).
  destruct (function w) as [[r d] w']. simpl in *. subst r.
  split; [|lra].
  destruct (is_expected x); [|reflexivity]. simpl.
  destruct (Qle_bool (now + d - now) timeout) eqn:Hle; [|reflexivity].
  apply Qle_bool_iff in Hle. lra.
Qed.

Lemma timed_retry_one_attempt_past_deadline_witness :
  timed_retry test_is_expected (1 # 20) 0
    (_fail_for_n_calls 10 (3 # 50) TestException) 100 0 0%nat
  = Some (mkTimedRun (Raise TestException) 1%nat (0 + (3 # 50))%Q 1 [])
  /\ (0 + (1 # 20) < 0 + (3 # 50))%Q.
Proof.
  apply (timed_retry_one_attempt_past_deadline test_is_expected (1 # 20) 0
           (_fail_for_n_calls 10 (3 # 50) TestException) 99 0 0%nat TestException).
  - intros w0. unfold _fail_for_n_calls. destruct (S w0 <=? 10)%nat; reflexivity.
  - reflexivity.
Defined.

(** The runs of [TestRetry] in [test_util.py]: five failures and a sixth
    call that succeeds; attempts of 0.02 s against a timeout of 0.05 s; an
    exception that the checker does not expect. *)
Example test_five_failures :
  option_map t_calls
    (timed_retry test_is_expected 1 0 (_fail_for_n_calls 5 0 TestException)
       1000 0 0%nat) = Some 6%nat.
Proof. reflexivity. Qed.

Example test_timeout :
  option_map (fun r => (t_out r, t_calls r))
    (timed_retry test_is_expected (1 # 20) 0
       (_fail_for_n_calls 10 (1 # 50) TestException) 1000 0 0%nat)
  = Some (Raise TestException, 3%nat).
Proof. reflexivity. Qed.

Example test_unexpected_exception :
  option_map (fun r => (t_out r, t_calls r))
    (timed_retry test_is_expected 1 0
       (_fail_for_n_calls 5 0 TestUnexpectedException) 1000 0 0%nat)
  = Some (Raise TestUnexpectedException, 1%nat).
Proof. reflexivity. Qed.

(** ** Patterns: what the classifiers accept *)

Lemma prefix_app (p s : string) :
  String.prefix p s = true <-> exists b, s = p ++ b.
Proof.
  revert s. induction p as [|c p IH]; intros s.
  - split; [intros _; now exists s | intros _; now destruct s].
  - destruct s as [|d s].
    + split; [discriminate | intros [b Hb]; discriminate Hb].
    + simpl. destruct (ascii_dec c d) as [-> | Hne].
      * rewrite IH. split; intros [b Hb]; exists b; [now rewrite Hb | now injection Hb].
      * split; [discriminate | intros [b Hb]; injection Hb as <- _; now destruct Hne].
Qed.

Lemma match_k_lit (rest : string) : forall (c : ascii) (s : string) (k : string -> bool),
  match_k (lit c rest) s k = true <->
  exists b, s = String c rest ++ b /\ k b = true.
Proof.
  induction rest as [|d rest IH]; intros c s k; simpl.
  - destruct s as [|e s].
    + split; [discriminate | intros (b & Hb & _); discriminate Hb].
    + rewrite andb_true_iff, Ascii.eqb_eq. split.
      * intros [-> Hk]. now exists s.
      * intros (b & Hb & Hk). injection Hb as -> ->. now split.
  - destruct s as [|e s].
    + split; [discriminate | intros (b & Hb & _); discriminate Hb].
    + rewrite andb_true_iff, Ascii.eqb_eq, IH. split.
      * intros [-> (b & -> & Hk)]. now exists b.
      * intros (b & Hb & Hk). injection Hb as -> ->. split; [reflexivity|]. now exists b.
Qed.

Lemma star_k_spec (a : atom) (s : string) (k : string -> bool) :
  star_k a s k = true <->
  exists p q, s = p ++ q /\ all_chars (atom_ok a) p = true /\ k q = true.
Proof.
  induction s as [|c s IH]; simpl.
  - split.
    + intros Hk. now exists EmptyString, EmptyString.
    + intros (p & q & Hs & _ & Hk). destruct p; [|discriminate Hs].
      change (EmptyString = q) in Hs. now subst q.
  - rewrite orb_true_iff, andb_true_iff, IH. split.
    + intros [[Hc (p & q & -> & Hp & Hk)] | Hk].
      * exists (String c p), q. simpl. now rewrite Hc, Hp.
      * now exists EmptyString, (String c s).
    + intros (p & q & Hs & Hp & Hk). destruct p as [|d p].
      * change (String c s = q) in Hs. subst q. now right.
      * change (String c s = String d (p ++ q)) in Hs.
        injection Hs as -> ->. apply andb_true_iff in Hp as [Hc Hp].
        left. split; [exact Hc|]. now exists p, q.
Qed.

Lemma re_match_literal (p s : string) :
  re_match (literal p) s = String.prefix p s.
Proof.
  apply eq_true_iff_eq. rewrite prefix_app. unfold re_match.
  destruct p as [|c p]; simpl.
  - split; [intros _; now exists s|]. intros _.
    destruct s; reflexivity.
  - rewrite match_k_lit. split; [intros (b & Hb & _); now exists b|].
    intros [b Hb]. now exists b.
Qed.

(** A retry pattern written as a plain error code makes the decorator retry
    exactly the [EC2ResponseError]s whose code starts with the pattern:
    [re.match] does not look at the end of the code, so a longer code with
    that beginning is retried as well. *)
Theorem retryable_literal_prefix (p : string) (x : exn) :
  retryable (literal p) x = true <->
  exists e code, x = EC2Error e /\ error_code e = Some code
                 /\ String.prefix p code = true.
Proof.
  destruct x as [e | m | m | m]; simpl;
    try (split; [discriminate | intros (e & c & H & _); discriminate H]).
  destruct (error_code e) as [code|] eqn:Hc.
  - rewrite re_match_literal. split.
    + intros Hp. exists e, code. now rewrite Hc.
    + intros (e' & c & [= <-] & Hc' & Hp). congruence.
  - split; [discriminate|]. intros (e' & c & [= <-] & Hc' & _). congruence.
Qed.

(** The pattern of [create_tags], [.*\.NotFound], accepts exactly the codes
    in which [.NotFound] occurs after a part without a newline. *)
Theorem re_match_any_NotFound (s : string) :
  re_match (Cat (Star Dot) (literal ".NotFound")) s = true <->
  exists a b, s = a ++ ".NotFound" ++ b /\ all_chars not_newline a = true.
Proof.
  unfold re_match. cbn [match_k]. rewrite star_k_spec. split.
  - intros (p & q & -> & Hp & Hq).
    change (literal ".NotFound") with (lit "." "NotFound") in Hq.
    apply match_k_lit in Hq as (b & -> & _). now exists p, b.
  - intros (a & b & -> & Ha). exists a, (".NotFound" ++ b).
    split; [reflexivity|]. split; [exact Ha|].
    change (literal ".NotFound") with (lit "." "NotFound").
    apply match_k_lit. now exists b.
Qed.

(** The pattern of [delete_security_group] accepts a code exactly when it
    starts with [InvalidGroup.InUse] or with [DependencyViolation]. *)
Theorem re_match_group_in_use (s : string) :
  re_match (Alt (literal "InvalidGroup.InUse") (literal "DependencyViolation")) s
  = String.prefix "InvalidGroup.InUse" s || String.prefix "DependencyViolation" s.
Proof.
  rewrite <- !re_match_literal. reflexivity.
Qed.

(** ** [retry_boto]: the whole run *)

Lemma sleep_schedule_length (n : nat) : forall s, List.length (sleep_schedule s n) = n.
Proof. induction n as [|n IH]; intros s; simpl; [reflexivity | now rewrite IH]. Qed.

Lemma sleep_schedule_nth (n : nat) : forall s i,
  (i < n)%nat -> (nth i (sleep_schedule s n) 0 == s * pow2 i)%Q.
Proof.
  induction n as [|n IH]; intros s i Hi; [lia|].
  destruct i as [|i]; simpl.
  - ring.
  - rewrite IH by lia. ring.
Qed.

Lemma Qsum_sleep_schedule (n : nat) : forall s,
  (Qsum (sleep_schedule s n) == s * (pow2 n - 1))%Q.
Proof.
  induction n as [|n IH]; intros s; simpl.
  - unfold Qsum. simpl. ring.
  - change (Qsum (s :: sleep_schedule (s * 2) n))
      with (s + Qsum (sleep_schedule (s * 2) n))%Q.
    rewrite IH. ring.
Qed.

Lemma pow2_ge_1 (n : nat) : (1 <= pow2 n)%Q.
Proof. induction n as [|n IH]; simpl; [apply Qle_refl | lra]. Qed.

Lemma pow2_le (k n : nat) : (k <= n)%nat -> (pow2 k <= pow2 n)%Q.
Proof.
  induction 1 as [|n Hle IH]; [apply Qle_refl|].
  simpl. pose proof (pow2_ge_1 n). lra.
Qed.

Section RetryBotoTrace.
Context {W A : Type}.
Variable error_code_regexp : regex.
Variable max_retries : Z.
Variable func : W -> outcome A * W.

Local Abbreviation loop := (retry_loop error_code_regexp max_retries func).

(** Everything a finished run of the loop did, read off its result: the
    number [k] of retries, the state, the sleeps, the failures that were
    retried, and where the outcome comes from. *)
Lemma retry_loop_trace (fuel : nat) : forall retries s w c sl r,
  loop fuel retries s w c sl = Some r ->
  exists k,
    calls r = (c + S k)%nat
    /\ world r = world_before func (S k) w
    /\ slept r = (sl ++ sleep_schedule s k)%list
    /\ (k = 0%nat \/ (retries + Z.of_nat k <= max_retries)%Z)
    /\ (forall i, (i < k)%nat ->
          exists x, invocation func i w = Raise x
                    /\ retryable error_code_regexp x = true)
    /\ (out r = invocation func k w
        \/ exists e, invocation func k w = Raise (EC2Error e)
                     /\ error_code e = None
                     /\ (retries + Z.of_nat k < max_retries)%Z
                     /\ out r = Raise (TypeError "expected string or buffer")).
Proof.
  induction fuel as [|fuel IH]; intros retries s w c sl r; [discriminate|].
  intros Hrun. simpl in Hrun. destruct (func w) as [o w'] eqn:Hf. revert Hrun.
  assert (H0 : invocation func 0 w = o) by (unfold invocation; simpl; now rewrite Hf).
  assert (Hw : world_before func 1 w = w') by (simpl; now rewrite Hf).
  assert (Hstop : forall o', o' = o \/
            (exists e, o = Raise (EC2Error e) /\ error_code e = None
                       /\ (retries < max_retries)%Z
                       /\ o' = Raise (TypeError "expected string or buffer")) ->
            Some (mkRun o' w' (S c) sl) = Some r ->
            exists k,
              calls r = (c + S k)%nat
              /\ world r = world_before func (S k) w
              /\ slept r = (sl ++ sleep_schedule s k)%list
              /\ (k = 0%nat \/ (retries + Z.of_nat k <= max_retries)%Z)
              /\ (forall i, (i < k)%nat ->
                    exists x, invocation func i w = Raise x
                              /\ retryable error_code_regexp x = true)
              /\ (out r = invocation func k w
                  \/ exists e, invocation func k w = Raise (EC2Error e)
                               /\ error_code e = None
                               /\ (retries + Z.of_nat k < max_retries)%Z
                               /\ out r = Raise (TypeError "expected string or buffer"))).
  { intros o' Ho' [= <-]. exists 0%nat. cbn [calls world slept out sleep_schedule].
    rewrite Hw, H0, app_nil_r, Z.add_0_r.
    split; [lia|]. split; [reflexivity|]. split; [reflexivity|].
    split; [now left|]. split; [intros i Hi; lia|].
    destruct Ho' as [-> | (e & -> & Hnone & Hlt & ->)]; [now left|].
    right. now exists e. }
  destruct o as [v | x]; [apply Hstop; now left|].
  destruct x as [e | | |]; try (apply Hstop; now left).
  destruct (Z.geb_spec retries max_retries) as [Hge | Hlt]; [apply Hstop; now left|].
  destruct (error_code e) as [code|] eqn:Hcode;
    [|apply Hstop; right; now exists e].
  destruct (re_match error_code_regexp code) eqn:Hm; [|apply Hstop; now left].
  clear Hstop. intros Hrun. apply IH in Hrun as (k & Hc & Hwd & Hsl & Hb & Hfail & Hout).
  exists (S k). split; [lia|].
  assert (Hshift : forall i, invocation func (S i) w = invocation func i w').
  { intros i. unfold invocation. simpl. now rewrite Hf. }
  split; [rewrite Hwd; simpl; now rewrite Hf|].
  split; [rewrite Hsl, <- app_assoc; reflexivity|].
  split; [right; lia|]. split.
  - intros [|i] Hi.
    + exists (EC2Error e). split; [exact H0|]. simpl. now rewrite Hcode.
    + rewrite Hshift. apply Hfail. lia.
  - rewrite Hshift. destruct Hout as [Hout | (e' & He' & Hn & Hl & Hout)]; [now left|].
    right. exists e'. repeat split; auto; lia.
Qed.

End RetryBotoTrace.

(** The run of a decorated function, for every wrapped function and start
    state: it ends, and its result tells the number of retries. *)
Lemma retry_boto_trace {W A : Type} (error_code_regexp : regex) (max_retries : Z)
    (initial_sleep_seconds : Q) (func : W -> outcome A * W) (w : W) :
  exists r k,
    retry_boto error_code_regexp max_retries initial_sleep_seconds func w = Some r
    /\ calls r = S k
    /\ (k <= Z.to_nat max_retries)%nat
    /\ world r = world_before func (S k) w
    /\ slept r = sleep_schedule initial_sleep_seconds k
    /\ (forall i, (i < k)%nat ->
          exists x, invocation func i w = Raise x
                    /\ retryable error_code_regexp x = true)
    /\ (out r = invocation func k w
        \/ exists e, invocation func k w = Raise (EC2Error e)
                     /\ error_code e = None
                     /\ (Z.of_nat k < max_retries)%Z
                     /\ out r = Raise (TypeError "expected string or buffer")).
Proof.
  destruct (retry_boto_total error_code_regexp max_retries initial_sleep_seconds
              func w) as [r Hr].
  pose proof Hr as Ht. unfold retry_boto in Ht.
  apply retry_loop_trace in Ht as (k & Hc & Hw & Hs & Hb & Hfail & Hout).
  exists r, k. repeat split; auto; try lia.
Qed.

(** Every call of a decorated function ends; it invokes the wrapped function
    at least once and at most [max_retries + 1] times, sleeps once between
    two invocations and passes the state on from one invocation to the
    next without touching it. *)
Theorem retry_boto_bounded {W A : Type} (error_code_regexp : regex) (max_retries : Z)
    (initial_sleep_seconds : Q) (func : W -> outcome A * W) (w : W) :
  exists r,
    retry_boto error_code_regexp max_retries initial_sleep_seconds func w = Some r
    /\ (1 <= calls r <= S (Z.to_nat max_retries))%nat
    /\ List.length (slept r) = (calls r - 1)%nat
    /\ world r = world_before func (calls r) w.
Proof.
  destruct (retry_boto_trace error_code_regexp max_retries initial_sleep_seconds
              func w) as (r & k & Hr & Hc & Hk & Hw & Hs & _).
  exists r. rewrite Hc, Hs, sleep_schedule_length. repeat split; auto; lia.
Qed.

(** The sleep before retry number [i + 1] lasts [initial_sleep_seconds]
    times 2 to the power [i], and a run with [n] retries sleeps for
    [initial_sleep_seconds * (2^n - 1)] in all. *)
Theorem retry_boto_sleep_schedule {W A : Type} (error_code_regexp : regex)
    (max_retries : Z) (initial_sleep_seconds : Q) (func : W -> outcome A * W)
    (w : W) :
  exists r,
    retry_boto error_code_regexp max_retries initial_sleep_seconds func w = Some r
    /\ (forall i, (i < calls r - 1)%nat ->
          (nth i (slept r) 0 == initial_sleep_seconds * pow2 i)%Q)
    /\ (Qsum (slept r) == initial_sleep_seconds * (pow2 (calls r - 1) - 1))%Q.
Proof.
  destruct (retry_boto_trace error_code_regexp max_retries initial_sleep_seconds
              func w) as (r & k & Hr & Hc & Hk & Hw & Hs & _).
  exists r. rewrite Hc, Hs. replace (S k - 1)%nat with k by lia.
  split; [exact Hr|]. split.
  - intros i Hi. now apply sleep_schedule_nth.
  - apply Qsum_sleep_schedule.
Qed.

(** With the default settings a call sleeps for at most 7.75 seconds in
    all and invokes the wrapped function at most 6 times, as the docstring
    of [retry_boto] says. *)
Theorem retry_boto_default_total_sleep {W A : Type} (error_code_regexp : regex)
    (func : W -> outcome A * W) (w : W) :
  exists r,
    retry_boto error_code_regexp default_max_retries default_initial_sleep_seconds
      func w = Some r
    /\ (calls r <= 6)%nat
    /\ (Qsum (slept r) <= 31 # 4)%Q.
Proof.
  destruct (retry_boto_trace error_code_regexp default_max_retries
              default_initial_sleep_seconds func w)
    as (r & k & Hr & Hc & Hk & Hw & Hs & _).
  exists r. split; [exact Hr|]. change (Z.to_nat default_max_retries) with 5%nat in Hk.
  split; [lia|]. rewrite Hs, Qsum_sleep_schedule.
  pose proof (pow2_le k 5 Hk) as Hp. change (pow2 5) with (2 * (2 * (2 * (2 * (2 * 1)))))%Q in Hp.
  unfold default_initial_sleep_seconds. lra.
Qed.

(** What a decorated function returns or raises is what the last
    invocation of the wrapped function returned or raised, and every
    earlier invocation raised a retryable error; the one exception is an
    [EC2ResponseError] without error code met while retries are left, for
    which the decorated function raises [TypeError]. *)
Theorem retry_boto_outcome_of_last_invocation {W A : Type}
    (error_code_regexp : regex) (max_retries : Z) (initial_sleep_seconds : Q)
    (func : W -> outcome A * W) (w : W) :
  exists r,
    retry_boto error_code_regexp max_retries initial_sleep_seconds func w = Some r
    /\ (forall i, (i < calls r - 1)%nat ->
          exists x, invocation func i w = Raise x
                    /\ retryable error_code_regexp x = true)
    /\ (out r = invocation func (calls r - 1) w
        \/ exists e, invocation func (calls r - 1) w = Raise (EC2Error e)
                     /\ error_code e = None
                     /\ (Z.of_nat (calls r) <= max_retries)%Z
                     /\ out r = Raise (TypeError "expected string or buffer")).
Proof.
  destruct (retry_boto_trace error_code_regexp max_retries initial_sleep_seconds
              func w) as (r & k & Hr & Hc & Hk & Hw & Hs & Hfail & Hout).
  exists r. rewrite Hc. replace (S k - 1)%nat with k by lia.
  split; [exact Hr|]. split; [exact Hfail|].
  destruct Hout as [Hout | (e & He & Hn & Hl & Hout)]; [now left|].
  right. exists e. repeat split; auto; lia.
Qed.

(** With [max_retries] zero or negative the decorated function is the
    wrapped function: one invocation, no sleep, the same outcome, also for
    an error whose code the pattern matches. *)
Theorem retry_boto_no_retries {W A : Type} (error_code_regexp : regex)
    (max_retries : Z) (initial_sleep_seconds : Q) (func : W -> outcome A * W)
    (w : W) :
  (max_retries <= 0)%Z ->
  retry_boto error_code_regexp max_retries initial_sleep_seconds func w
  = Some (mkRun (fst (func w)) (snd (func w)) 1 []).
Proof.
  intros Hle. unfold retry_boto. simpl. destruct (func w) as [[v | x] w']; [reflexivity|].
  destruct x as [e | | |]; try reflexivity.
  destruct (Z.geb_spec 0 max_retries); [reflexivity | lia].
Qed.

Lemma retry_boto_no_retries_witness :
  retry_boto (literal "VolumeInUse") 0 (1 # 4)
    (scripted (A := nat) [] (Raise (provider_error "VolumeInUse"))) 0%nat
  = Some (mkRun (Raise (provider_error "VolumeInUse")) 1%nat 1 []).
Proof.
  apply (retry_boto_no_retries (literal "VolumeInUse") 0 (1 # 4)
           (scripted (A := nat) [] (Raise (provider_error "VolumeInUse"))) 0%nat).
  lia.
Defined.

(** An [EC2ResponseError] that has no error code, raised while a retry is
    left, is never retried and never re-raised: the decorated function
    raises [TypeError] after that one invocation. *)
Theorem retry_boto_error_without_code {W A : Type} (error_code_regexp : regex)
    (max_retries : Z) (initial_sleep_seconds : Q) (func : W -> outcome A * W)
    (w : W) (e : EC2ResponseError) :
  fst (func w) = Raise (EC2Error e) ->
  error_code e = None ->
  (0 < max_retries)%Z ->
  retry_boto error_code_regexp max_retries initial_sleep_seconds func w
  = Some (mkRun (Raise (TypeError "expected string or buffer")) (snd (func w)) 1 []).
Proof.
  intros He Hn Hpos. unfold retry_boto. simpl.
  destruct (func w) as [o w']. simpl in *. subst o.
  destruct (Z.geb_spec 0 max_retries); [lia|]. now rewrite Hn.
Qed.

Lemma retry_boto_error_without_code_witness :
  retry_boto (literal "VolumeInUse") 5 (1 # 4)
    (scripted (A := nat) []
       (Raise (EC2Error (mkEC2ResponseError "503" "Service Unavailable" None))))
    0%nat
  = Some (mkRun (Raise (TypeError "expected string or buffer")) 1%nat 1 []).
Proof.
  apply (retry_boto_error_without_code (literal "VolumeInUse") 5 (1 # 4)
           (scripted (A := nat) []
              (Raise (EC2Error (mkEC2ResponseError "503" "Service Unavailable" None))))
           0%nat (mkEC2ResponseError "503" "Service Unavailable" None));
    [reflexivity | reflexivity | lia].
Defined.

(** ** Validators: how they relate *)

(** [validate_image_name] returns its argument or raises
    [ValidationError], and it returns exactly for the names of 3 to 128
    characters that are a run of allowed characters, optionally followed by
    one final newline. *)
Theorem validate_image_name_accepted_names (name : string) :
  (validate_image_name name = Return name <->
   (3 <= String.length name <= 128)%nat /\
   (all_chars image_name_char name = true \/
    exists q, name = q ++ String newline EmptyString
              /\ all_chars image_name_char q = true))
  /\ (validate_image_name name = Return name \/
      exists msg, validate_image_name name = Raise (ValidationError msg)).
Proof.
  split; [apply validate_image_name_spec | apply validate_image_name_total].
Qed.

(** Every string that [validate_tag_key] accepts is accepted by
    [validate_tag_value] too. *)
Theorem valid_tag_key_is_valid_tag_value (s : string) :
  validate_tag_key s = Return s -> validate_tag_value s = Return s.
Proof.
  unfold validate_tag_key, validate_tag_value.
  destruct (Nat.ltb_spec 127 (String.length s)); [discriminate|].
  destruct (String.prefix "aws:" s); [discriminate|]. intros _.
  destruct (Nat.ltb_spec 255 (String.length s)); [lia | reflexivity].
Qed.

Lemma valid_tag_key_is_valid_tag_value_witness :
  validate_tag_value "Name" = Return "Name".
Proof. apply (valid_tag_key_is_valid_tag_value "Name"). reflexivity. Defined.

(** ** The adapter: further facts *)

Lemma world_before_same_state {W A B : Type} (f : W -> outcome A * W)
    (g : W -> outcome B * W) :
  (forall w, snd (g w) = snd (f w)) ->
  forall n w, world_before g n w = world_before f n w.
Proof.
  intros Hsnd. induction n as [|n IH]; intros w; simpl; [reflexivity|].
  now rewrite Hsnd, IH.
Qed.

(** [k] retryable failures within the bound and then a return. *)
Lemma retry_boto_after_failures {W A : Type} (error_code_regexp : regex)
    (max_retries : Z) (initial_sleep_seconds : Q) (func : W -> outcome A * W)
    (k : nat) (w : W) (v : A) :
  (Z.of_nat k <= max_retries)%Z ->
  (forall i, (i < k)%nat ->
     exists x, invocation func i w = Raise x
               /\ retryable error_code_regexp x = true) ->
  invocation func k w = Return v ->
  retry_boto error_code_regexp max_retries initial_sleep_seconds func w
  = Some (mkRun (Return v) (world_before func (S k) w) (S k)
            (sleep_schedule initial_sleep_seconds k)).
Proof.
  intros Hk Hfail Hok.
  destruct (retry_boto_trace error_code_regexp max_retries initial_sleep_seconds
              func w) as (r & k' & Hr & Hc & _ & Hw & Hs & _).
  pose proof Hr as Hrun. unfold retry_boto in Hrun.
  replace (S (Z.to_nat max_retries)) with (k + S (Z.to_nat max_retries - k))%nat
    in Hrun by lia.
  destruct (retry_loop_prefix error_code_regexp max_retries func k
              (S (Z.to_nat max_retries - k)) 0%Z initial_sleep_seconds w 0%nat []
              Hfail) as (s' & sl' & _ & Heq); [lia|].
  rewrite Heq, (retry_loop_return _ _ _ _ _ _ _ _ _ v Hok) in Hrun.
  injection Hrun as Hrun. rewrite Hr. f_equal.
  assert (k' = k) as -> by (rewrite <- Hrun in Hc; simpl in Hc; lia).
  destruct r as [o wd c sl]. simpl in *. subst. f_equal.
  now injection Hrun.
Qed.

(** A decorated lookup by id whose provider returns the empty list does
    not raise the not-found error that [_get_first_element] builds, and
    does not retry: that error has no error code, and the call raises
    [TypeError] after one request. *)
Theorem decorated_lookup_empty_list {W R : Type} (conn : EC2Connection W R)
    (resource_id : string) (w w' : W) :
  (conn_get_only_instances conn [resource_id] w = (Return [], w') ->
   get_instance conn resource_id w
   = Some (mkRun (Raise (TypeError "expected string or buffer")) w' 1 []))
  /\ (conn_get_all_volumes conn [resource_id] w = (Return [], w') ->
      get_volume conn resource_id w
      = Some (mkRun (Raise (TypeError "expected string or buffer")) w' 1 []))
  /\ (conn_get_all_snapshots conn [resource_id] w = (Return [], w') ->
      get_snapshot conn resource_id w
      = Some (mkRun (Raise (TypeError "expected string or buffer")) w' 1 [])).
Proof.
  unfold get_instance, get_volume, get_snapshot, retry_boto,
    get_instance_body, get_volume_body, get_snapshot_body.
  repeat split; intros Hl; simpl; now rewrite Hl.
Qed.

Lemma decorated_lookup_empty_list_witness :
  get_instance (sample_conn [] [] []) "i-1" 0%nat
  = Some (mkRun (Raise (TypeError "expected string or buffer")) 1%nat 1 [])
  /\ get_volume (sample_conn [] [] []) "vol-1" 0%nat
     = Some (mkRun (Raise (TypeError "expected string or buffer")) 1%nat 1 [])
  /\ get_snapshot (sample_conn [] [] []) "snap-1" 0%nat
     = Some (mkRun (Raise (TypeError "expected string or buffer")) 1%nat 1 []).
Proof.
  split; [|split].
  - apply (decorated_lookup_empty_list (sample_conn [] [] []) "i-1" 0%nat 1%nat).
    reflexivity.
  - apply (decorated_lookup_empty_list (sample_conn [] [] []) "vol-1" 0%nat 1%nat).
    reflexivity.
  - apply (decorated_lookup_empty_list (sample_conn [] [] []) "snap-1" 0%nat 1%nat).
    reflexivity.
Defined.

(** [get_security_group] always ends; with [retry=True] it returns [None]
    or raises, whatever the provider answers, and with [retry=False] it
    returns a group or raises. *)
Theorem get_security_group_outcomes {W R : Type} (conn : EC2Connection W R)
    (sg_id : string) (w : W) :
  (exists o w', get_security_group conn sg_id true w = Some (o, w')
                /\ (o = Return None \/ exists x, o = Raise x))
  /\ (exists o w', get_security_group conn sg_id false w = Some (o, w')
                   /\ ((exists g, o = Return (Some g)) \/ exists x, o = Raise x)).
Proof.
  split.
  - unfold get_security_group.
    destruct (retry_boto_total (literal "InvalidGroup.NotFound") default_max_retries
                default_initial_sleep_seconds (get_with_retry conn sg_id) w)
      as [r ->].
    destruct (out r) as [g | x]; do 2 eexists; (split; [reflexivity|]);
      [now left | right; now exists x].
  - unfold get_security_group, get_with_retry, and_then.
    destruct (conn_get_all_security_groups conn [sg_id] w) as [[l | x] w'];
      [destruct l as [|g l]|]; simpl; do 2 eexists; (split; [reflexivity|]);
      [right | left | right]; eauto.
Qed.

(** What the body of [delete_volume] makes of the provider's answer. *)
Lemma delete_volume_body_eq {W R : Type} (conn : EC2Connection W R)
    (volume_id : string) (w : W) :
  delete_volume_body conn volume_id w
  = (match fst (conn_delete_volume conn volume_id w) with
     | Return _ => Return true
     | Raise x => if already_absent x then Return true else Raise x
     end, snd (conn_delete_volume conn volume_id w)).
Proof.
  unfold delete_volume_body.
  destruct (conn_delete_volume conn volume_id w) as [[b | x] w']; [reflexivity|].
  destruct x as [e | | |]; try reflexivity. simpl.
  destruct (decide (error_code e ≠ Some "InvalidVolume.NotFound")) as [Hne | Heq].
  - now rewrite bool_decide_eq_false_2.
  - rewrite bool_decide_eq_true_2; [reflexivity|]. now apply dec_stable.
Qed.

Lemma delete_volume_invocation {W R : Type} (conn : EC2Connection W R)
    (volume_id : string) (n : nat) (w : W) :
  world_before (delete_volume_body conn volume_id) n w
  = world_before (conn_delete_volume conn volume_id) n w
  /\ invocation (delete_volume_body conn volume_id) n w
     = match invocation (conn_delete_volume conn volume_id) n w with
       | Return _ => Return true
       | Raise x => if already_absent x then Return true else Raise x
       end.
Proof.
  assert (Hw : forall m v, world_before (delete_volume_body conn volume_id) m v
                           = world_before (conn_delete_volume conn volume_id) m v).
  { apply world_before_same_state. intros v. now rewrite delete_volume_body_eq. }
  split; [apply Hw|]. unfold invocation. now rewrite Hw, delete_volume_body_eq.
Qed.

Lemma in_use_not_absent (x : exn) :
  retryable (literal "VolumeInUse") x = true -> already_absent x = false.
Proof.
  destruct x as [e | | |]; try discriminate. simpl.
  destruct (error_code e) as [code|]; [|discriminate]. intros Hm.
  apply bool_decide_eq_false_2. intros [= ->]. discriminate Hm.
Qed.

(** [delete_volume] never returns [False]: whatever the provider's delete
    request returns or raises, a call returns [True] or raises. *)
Theorem delete_volume_returns_True_or_raises {W R : Type}
    (conn : EC2Connection W R) (volume_id : string) (w : W) :
  exists r,
    delete_volume conn volume_id w = Some r
    /\ (out r = Return true \/ exists x, out r = Raise x).
Proof.
  destruct (retry_boto_trace (literal "VolumeInUse") default_max_retries
              default_initial_sleep_seconds (delete_volume_body conn volume_id) w)
    as (r & k & Hr & _ & _ & _ & _ & _ & Hout).
  exists r. split; [exact Hr|].
  destruct Hout as [Hout | (e & _ & _ & _ & Hout)]; [|right; eauto].
  rewrite Hout. destruct (delete_volume_invocation conn volume_id k w) as [_ ->].
  destruct (invocation (conn_delete_volume conn volume_id) k w) as [b | x];
    [left; reflexivity|].
  destruct (already_absent x); [left; reflexivity | right; eauto].
Qed.

(** When the volume is in use for the first [k] delete requests, [k] at
    most 5, and the provider then reports it absent, [delete_volume]
    returns [True] after [k + 1] requests and [k] sleeps. *)
Theorem delete_volume_in_use_then_absent {W R : Type} (conn : EC2Connection W R)
    (volume_id : string) (k : nat) (w : W) (x : exn) :
  (k <= 5)%nat ->
  (forall i, (i < k)%nat ->
     exists y, invocation (conn_delete_volume conn volume_id) i w = Raise y
               /\ retryable (literal "VolumeInUse") y = true) ->
  invocation (conn_delete_volume conn volume_id) k w = Raise x ->
  already_absent x = true ->
  delete_volume conn volume_id w
  = Some (mkRun (Return true)
            (world_before (conn_delete_volume conn volume_id) (S k) w) (S k)
            (sleep_schedule default_initial_sleep_seconds k)).
Proof.
  intros Hk Hfail Hlast Habs. unfold delete_volume.
  destruct (delete_volume_invocation conn volume_id (S k) w) as [<- _].
  apply retry_boto_after_failures.
  - unfold default_max_retries. lia.
  - intros i Hi. destruct (Hfail i Hi) as (y & Hy & Hr). exists y. split; [|exact Hr].
    destruct (delete_volume_invocation conn volume_id i w) as [_ ->].
    now rewrite Hy, (in_use_not_absent y Hr).
  - destruct (delete_volume_invocation conn volume_id k w) as [_ ->].
    now rewrite Hlast, Habs.
Qed.

Lemma delete_volume_in_use_then_absent_witness :
  delete_volume
    (sample_conn [] [Raise (provider_error "VolumeInUse");
                     Raise (provider_error "VolumeInUse");
                     Raise (provider_error "InvalidVolume.NotFound")] [])
    "vol-1" 0%nat
  = Some (mkRun (Return true) 3%nat 3 (sleep_schedule default_initial_sleep_seconds 2)).
Proof.
  apply (delete_volume_in_use_then_absent
           (sample_conn [] [Raise (provider_error "VolumeInUse");
                            Raise (provider_error "VolumeInUse");
                            Raise (provider_error "InvalidVolume.NotFound")] [])
           "vol-1" 2 0%nat (provider_error "InvalidVolume.NotFound")).
  - lia.
  - intros [|[|i]] Hi; [eexists; split; reflexivity .. | lia].
  - reflexivity.
  - reflexivity.
Defined.

(** When the provider answers a delete request for a security group with
    [False], [delete_security_group] raises a plain [Exception] after that
    one request: the decorator does not retry it. *)
Theorem delete_security_group_false_not_retried {W R B : Type}
    (conn' : EC2ConnectionMore W R B) (sg_id : string) (w w' : W) :
  conn_delete_security_group conn' sg_id w = (Return false, w') ->
  delete_security_group conn' sg_id w
  = Some (mkRun (Raise (Exception "Unknown error while deleting security group"))
            w' 1 []).
Proof.
  intros Hc. unfold delete_security_group, retry_boto, delete_security_group_body.
  simpl. now rewrite Hc.
Qed.

Lemma delete_security_group_false_not_retried_witness :
  delete_security_group (sample_conn_more [] [Return false]) "sg-1" 0%nat
  = Some (mkRun (Raise (Exception "Unknown error while deleting security group"))
            1%nat 1 []).
Proof.
  apply (delete_security_group_false_not_retried
           (sample_conn_more [] [Return false]) "sg-1" 0%nat 1%nat).
  reflexivity.
Defined.






(** A run in which every invocation up to the bound raises a retryable
    error makes all [max_retries + 1] invocations. *)
Lemma retry_boto_persistent_failure {W A : Type} (error_code_regexp : regex)
    (N : nat) (initial_sleep_seconds : Q) (func : W -> outcome A * W) (w : W) :
  (forall i, (i <= N)%nat ->
     exists x, invocation func i w = Raise x
               /\ retryable error_code_regexp x = true) ->
  exists r,
    retry_boto error_code_regexp (Z.of_nat N) initial_sleep_seconds func w = Some r
    /\ calls r = S N
    /\ out r = invocation func N w
    /\ slept r = sleep_schedule initial_sleep_seconds N.
Proof.
  intros Hfail.
  destruct (retry_boto_trace error_code_regexp (Z.of_nat N) initial_sleep_seconds
              func w) as (r & k & Hr & Hc & _ & _ & Hs & _).
  exists r. split; [exact Hr|].
  pose proof Hr as Hrun. unfold retry_boto in Hrun. rewrite Nat2Z.id in Hrun.
  replace (S N) with (N + 1)%nat in Hrun by lia.
  destruct (retry_loop_prefix error_code_regexp (Z.of_nat N) func N 1%nat 0%Z
              initial_sleep_seconds w 0%nat []) as (s' & sl' & _ & Heq);
    [intros i Hi; apply Hfail; lia | lia |].
  rewrite Heq in Hrun. destruct (Hfail N) as (x & Hx & Hret); [lia|].
  destruct x as [e | | |]; try discriminate Hret.
  rewrite (retry_loop_exhausted _ _ _ _ _ _ _ _ _ e Hx) in Hrun by lia.
  injection Hrun as <-. simpl in Hc. assert (k = N) as -> by lia.
  simpl in *. rewrite Hx. repeat split; auto; lia.
Qed.

(** [create_image] is retried up to 20 times: when the provider keeps
    answering with [InvalidParameterValue], a call makes 21 requests,
    sleeps for 262143.75 seconds in all, and raises the last error. *)
Theorem create_image_worst_case {W R B : Type} (conn' : EC2ConnectionMore W R B)
    (instance_id name : string) (description : option string) (no_reboot : bool)
    (block_device_mapping : option B) (w : W) :
  (forall i, (i <= 20)%nat ->
     exists x,
       invocation (conn_create_image conn' instance_id name description no_reboot
                     block_device_mapping) i w = Raise x
       /\ retryable (literal "InvalidParameterValue") x = true) ->
  exists r,
    create_image conn' instance_id name description no_reboot block_device_mapping w
    = Some r
    /\ calls r = 21%nat
    /\ out r = invocation (conn_create_image conn' instance_id name description
                             no_reboot block_device_mapping) 20 w
    /\ (Qsum (slept r) == 1048575 # 4)%Q.
Proof.
  intros Hfail.
  destruct (retry_boto_persistent_failure (literal "InvalidParameterValue") 20
              default_initial_sleep_seconds _ w Hfail) as (r & Hr & Hc & Hout & Hs).
  exists r. split; [exact Hr|]. split; [exact Hc|]. split; [exact Hout|].
  rewrite Hs, Qsum_sleep_schedule. vm_compute. reflexivity.
Qed.

Lemma create_image_worst_case_witness :
  exists r,
    create_image
      (sample_conn_more (repeat (Raise (provider_error "InvalidParameterValue")) 21) [])
      "i-1" "image" None true None 0%nat = Some r
    /\ calls r = 21%nat
    /\ out r = invocation
                 (conn_create_image
                    (sample_conn_more
                       (repeat (Raise (provider_error "InvalidParameterValue")) 21) [])
                    "i-1" "image" None true None) 20 0%nat
    /\ (Qsum (slept r) == 1048575 # 4)%Q.
Proof.
  apply (create_image_worst_case
           (sample_conn_more (repeat (Raise (provider_error "InvalidParameterValue")) 21) [])
           "i-1" "image" None true None 0%nat).
  intros i Hi.
  do 21 (destruct i as [|i]; [eexists; split; reflexivity|]). lia.
Defined.

(** ** Tagging: how calls compose *)

(** A whole call of [create_tags] on a service object whose default tags
    are [defaults]. *)
Lemma create_tags_run {W R : Type} (conn : EC2Connection W R)
    (resource_id : string) (name description : option string) (st : state W)
    (defaults : gmap string string) :
  heap st !! default_tags st = Some defaults ->
  exists r,
    create_tags conn resource_id name description st = Some r
    /\ (1 <= calls r)%nat
    /\ default_tags (world r) = default_tags st
    /\ sent (world r)
       = (sent st ++ repeat ([resource_id], explicit_tags name description ∪ defaults)
                       (calls r))%list
    /\ (forall l d, heap st !! l = Some d -> heap (world r) !! l = Some d).
Proof.
  intros Hd.
  destruct (retry_boto_total (Cat (Star Dot) (literal ".NotFound"))
              default_max_retries default_initial_sleep_seconds
              (create_tags_body conn resource_id name description) st) as [r Hr].
  exists r. split; [exact Hr|]. split; [apply retry_loop_calls in Hr; lia|].
  set (entry := ([resource_id], explicit_tags name description ∪ defaults)).
  apply (retry_loop_invariant _ _ _
           (fun n s => default_tags s = default_tags st
                       /\ sent s = (sent st ++ repeat entry n)%list
                       /\ (forall l d, heap st !! l = Some d -> heap s !! l = Some d)))
    in Hr; [exact Hr | | ].
  - intros n s (Hdt & Hs & Hframe).
    destruct (create_tags_body_spec conn resource_id name description s defaults)
      as (Hdt' & Hs' & Hh'); [rewrite Hdt; now apply Hframe|].
    split; [congruence|]. split.
    + rewrite Hs', Hs, <- app_assoc. f_equal.
      change (repeat entry (S n)) with (entry :: repeat entry n).
      now rewrite repeat_cons.
    + intros l d Hl. apply Hh'. now apply Hframe.
  - split; [reflexivity|]. split; [simpl; now rewrite app_nil_r | auto].
Qed.

Lemma AWSService_init_defaults {W : Type} (default_tags0 : option loc)
    (h : gmap loc (gmap string string)) (w : W) :
  heap (AWSService_init default_tags0 h w)
    !! default_tags (AWSService_init default_tags0 h w)
  = Some (match default_tags0 with
          | Some l => default ∅ (h !! l)
          | None => ∅
          end)
  /\ sent (AWSService_init default_tags0 h w) = []
  /\ (forall l d, h !! l = Some d ->
        heap (AWSService_init default_tags0 h w) !! l = Some d).
Proof.
  assert (Hfresh : h !! fresh (dom h) = None).
  { apply not_elem_of_dom. apply is_fresh. }
  assert (Hframe : forall l d, h !! l = Some d ->
                     <[fresh (dom h) := (∅ : gmap string string)]> h !! l = Some d).
  { intros l d Hl. rewrite lookup_insert_ne; [exact Hl | congruence]. }
  unfold AWSService_init.
  destruct default_tags0 as [l|]; [destruct (h !! l) as [d|] eqn:Hl|];
    [destruct (decide (d = ∅)) as [-> | Hne]|..];
    cbn [heap default_tags sent default from_option];
    rewrite ?lookup_insert_eq; auto.
Qed.

(** [get_default_vpc] raises only what the provider's request raises; when
    the provider returns no VPC it returns [None], and otherwise the first
    VPC of the list. *)
Theorem get_default_vpc_outcomes {W R B : Type} (conn' : EC2ConnectionMore W R B)
    (w : W) :
  snd (get_default_vpc conn' w)
  = snd (conn_get_all_vpcs conn' {[ "is-default" := "true" ]} w)
  /\ (forall x, fst (get_default_vpc conn' w) = Raise x <->
                fst (conn_get_all_vpcs conn' {[ "is-default" := "true" ]} w) = Raise x)
  /\ (fst (get_default_vpc conn' w) = Return None <->
      fst (conn_get_all_vpcs conn' {[ "is-default" := "true" ]} w) = Return [])
  /\ (forall v, fst (get_default_vpc conn' w) = Return (Some v) <->
                exists rest,
                  fst (conn_get_all_vpcs conn' {[ "is-default" := "true" ]} w)
                  = Return (v :: rest)).
Proof.
  unfold get_default_vpc, and_then.
  destruct (conn_get_all_vpcs conn' _ w) as [[[|v0 rest] | x0] w']; simpl;
    repeat split; try discriminate; try congruence; eauto;
    try (intros [rest' H]; congruence);
    try (intros [= ->]; eauto).
Qed.

(** The lookups without decorator, [get_key_pair], [get_subnet] and
    [get_security_group] with [retry=False], raise on an empty list an
    [EC2ResponseError] that carries the not-found code as its [status] and
    has no [error_code]. *)
Theorem undecorated_lookup_empty_list {W R : Type} (conn : EC2Connection W R)
    (resource_id : string) (w w' : W) :
  (conn_get_all_key_pairs conn [resource_id] w = (Return [], w') ->
   exists e, get_key_pair conn resource_id w = (Raise (EC2Error e), w')
             /\ status e = "InvalidKeyPair.NotFound" /\ error_code e = None)
  /\ (conn_get_all_subnets conn [resource_id] w = (Return [], w') ->
      exists e, get_subnet conn resource_id w = (Raise (EC2Error e), w')
                /\ status e = "InvalidSubnetID.NotFound" /\ error_code e = None)
  /\ (conn_get_all_security_groups conn [resource_id] w = (Return [], w') ->
      exists e, get_security_group conn resource_id false w
                = Some (Raise (EC2Error e), w')
                /\ status e = "InvalidGroup.NotFound" /\ error_code e = None).
Proof.
  unfold get_key_pair, get_subnet, get_security_group, get_with_retry.
  repeat split; intros Hl; rewrite Hl; simpl; eexists; repeat split.
Qed.

Lemma undecorated_lookup_empty_list_witness :
  (exists e, get_key_pair (sample_conn [] [] []) "key" 0%nat
             = (Raise (EC2Error e), 1%nat)
             /\ status e = "InvalidKeyPair.NotFound" /\ error_code e = None)
  /\ (exists e, get_subnet (sample_conn [] [] []) "subnet-1" 0%nat
                = (Raise (EC2Error e), 1%nat)
                /\ status e = "InvalidSubnetID.NotFound" /\ error_code e = None).
Proof.
  split.
  - apply (undecorated_lookup_empty_list (sample_conn [] [] []) "key" 0%nat 1%nat).
    reflexivity.
  - apply (undecorated_lookup_empty_list (sample_conn [] [] []) "subnet-1" 0%nat 1%nat).
    reflexivity.
Defined.

(** ** Errors without an error code *)

(** C2: the error that [_get_first_element] builds for an empty instance
    list has no error code, so the pattern [InvalidInstanceID.NotFound]
    does not recognise it as retryable; a decorated function whose wrapped
    function raises it does not raise that error again but [TypeError],
    after one invocation. *)
Theorem retry_boto_error_without_code_not_reraised :
  retryable (literal "InvalidInstanceID.NotFound")
    (EC2Error (mkEC2ResponseError "InvalidInstanceID.NotFound"
                 "AWS API returned an empty response" None)) = false
  /\ _get_first_element ([] : list nat) "InvalidInstanceID.NotFound"
     = Raise (EC2Error (mkEC2ResponseError "InvalidInstanceID.NotFound"
                          "AWS API returned an empty response" None))
  /\ retry_boto (literal "InvalidInstanceID.NotFound") 5 (1 # 4)
       (scripted []
          (_get_first_element ([] : list nat) "InvalidInstanceID.NotFound")) 0%nat
     = Some (mkRun (Raise (TypeError "expected string or buffer")) 1%nat 1 []).
Proof. repeat split. Qed.

(** ** Runs that stop after some retries *)

(** [k] retryable failures within the bound and then an error that ends the
    loop: one that the pattern does not recognise, or any
    [EC2ResponseError] when no retry is left. *)
Lemma retry_boto_after_failures_raise {W A : Type} (error_code_regexp : regex)
    (max_retries : Z) (initial_sleep_seconds : Q) (func : W -> outcome A * W)
    (k : nat) (w : W) (x : exn) :
  (Z.of_nat k <= max_retries)%Z ->
  (forall i, (i < k)%nat ->
     exists y, invocation func i w = Raise y
               /\ retryable error_code_regexp y = true) ->
  invocation func k w = Raise x ->
  unrecognised error_code_regexp x = true
  \/ (Z.of_nat k = max_retries /\ exists e, x = EC2Error e) ->
  retry_boto error_code_regexp max_retries initial_sleep_seconds func w
  = Some (mkRun (Raise x) (world_before func (S k) w) (S k)
            (sleep_schedule initial_sleep_seconds k)).
Proof.
  intros Hk Hfail Hx Hstop.
  destruct (retry_boto_trace error_code_regexp max_retries initial_sleep_seconds
              func w) as (r & k' & Hr & Hc & _ & Hw & Hs & _).
  pose proof Hr as Hrun. unfold retry_boto in Hrun.
  replace (S (Z.to_nat max_retries)) with (k + S (Z.to_nat max_retries - k))%nat
    in Hrun by lia.
  destruct (retry_loop_prefix error_code_regexp max_retries func k
              (S (Z.to_nat max_retries - k)) 0%Z initial_sleep_seconds w 0%nat []
              Hfail) as (s' & sl' & _ & Heq); [lia|].
  rewrite Heq in Hrun.
  assert (Hlast : Some (mkRun (Raise (A := A) x) (snd (func (world_before func k w)))
                          (S (0 + k)) sl') = Some r).
  { rewrite <- Hrun. symmetry. destruct Hstop as [Hu | [Hmax [e ->]]].
    - now apply retry_loop_unrecognised.
    - apply retry_loop_exhausted; [exact Hx | lia]. }
  injection Hlast as Hlast. rewrite Hr. f_equal.
  assert (k' = k) as -> by (rewrite <- Hlast in Hc; simpl in Hc; lia).
  destruct r as [o wd c sl]. simpl in *. subst. f_equal.
  now injection Hlast.
Qed.

(** Two wrapped functions that answer alike on related states give runs
    that answer alike and end in related states. *)
Lemma retry_loop_simulation {W1 W2 A : Type} (error_code_regexp : regex)
    (max_retries : Z) (f : W1 -> outcome A * W1) (g : W2 -> outcome A * W2)
    (Rel : W1 -> W2 -> Prop) :
  (forall w1 w2, Rel w1 w2 ->
     fst (f w1) = fst (g w2) /\ Rel (snd (f w1)) (snd (g w2))) ->
  forall fuel retries s w1 w2 c sl r1,
    Rel w1 w2 ->
    retry_loop error_code_regexp max_retries f fuel retries s w1 c sl = Some r1 ->
    exists w2',
      retry_loop error_code_regexp max_retries g fuel retries s w2 c sl
      = Some (mkRun (out r1) w2' (calls r1) (slept r1))
      /\ Rel (world r1) w2'.
Proof.
  intros Hstep. induction fuel as [|fuel IH]; intros retries s w1 w2 c sl r1 Hrel;
    [discriminate|].
  simpl. destruct (Hstep w1 w2 Hrel) as [Hout Hnext].
  destruct (f w1) as [o w1'], (g w2) as [o2 w2']. simpl in Hout, Hnext. subst o2.
  destruct o as [v | x]; [intros [= <-]; eauto|].
  destruct x as [e | | |]; try (intros [= <-]; eauto).
  destruct (retries >=? max_retries)%Z; [intros [= <-]; eauto|].
  destruct (error_code e); [|intros [= <-]; eauto].
  destruct (re_match _ _); [|intros [= <-]; eauto].
  now apply IH.
Qed.

(** The request that one execution of the body of [create_tags] makes. *)
Lemma create_tags_body_request {W R : Type} (conn : EC2Connection W R)
    (resource_id : string) (name description : option string) (st : state W)
    (defaults : gmap string string) :
  heap st !! default_tags st = Some defaults ->
  fst (create_tags_body conn resource_id name description st)
  = fst (conn_create_tags conn [resource_id]
           (explicit_tags name description ∪ defaults) (provider st))
  /\ provider (snd (create_tags_body conn resource_id name description st))
     = snd (conn_create_tags conn [resource_id]
              (explicit_tags name description ∪ defaults) (provider st)).
Proof.
  intros Hd. unfold create_tags_body. rewrite Hd. cbn [default from_option fst snd].
  rewrite (set_if_truthy_same _ _ _ _ _
             (set_if_truthy_same _ _ _ _ _ (lookup_insert_eq _ _ _))).
  cbn [default from_option]. rewrite merged_tags_union.
  destruct (conn_create_tags _ _ _ _) as [r w']. now split.
Qed.

(** A whole call of [create_tags], seen from the provider: the requests it
    receives, their answers and the sleeps between them are those of the
    decorator run on the one request with the resource id and the explicit
    tags over the defaults. *)
Lemma create_tags_provider_run {W R : Type} (conn : EC2Connection W R)
    (resource_id : string) (name description : option string) (st : state W)
    (defaults : gmap string string) :
  heap st !! default_tags st = Some defaults ->
  exists r,
    create_tags conn resource_id name description st = Some r
    /\ retry_boto (Cat (Star Dot) (literal ".NotFound"))
         default_max_retries default_initial_sleep_seconds
         (conn_create_tags conn [resource_id]
            (explicit_tags name description ∪ defaults)) (provider st)
       = Some (mkRun (out r) (provider (world r)) (calls r) (slept r))
    /\ heap (world r) !! default_tags (world r) = Some defaults.
Proof.
  intros Hd.
  destruct (retry_boto_total (Cat (Star Dot) (literal ".NotFound"))
              default_max_retries default_initial_sleep_seconds
              (create_tags_body conn resource_id name description) st) as [r Hr].
  exists r. split; [exact Hr|].
  apply (retry_loop_simulation _ _ _
           (conn_create_tags conn [resource_id]
              (explicit_tags name description ∪ defaults))
           (fun s w => provider s = w
                       /\ heap s !! default_tags s = Some defaults))
    with (w2 := provider st) in Hr.
  - destruct Hr as (w2' & Hrun & <- & Hkeep). now split.
  - intros s w0 [<- Hs].
    destruct (create_tags_body_request conn resource_id name description s defaults Hs)
      as [Hout Hprov].
    destruct (create_tags_body_spec conn resource_id name description s defaults Hs)
      as (Hdt & _ & Hframe).
    split; [exact Hout|]. split; [exact Hprov|]. rewrite Hdt. now apply Hframe.
  - now split.
Qed.

(** ** [delete_volume]: which errors come back *)

(** A provider error other than [InvalidVolume.NotFound] that
    [delete_volume] does not raise again: after one [VolumeInUse] error the
    call sleeps, asks again and returns [True]. *)
Lemma delete_volume_in_use_error_not_reraised :
  fst (conn_delete_volume (sample_conn [] [Raise (provider_error "VolumeInUse")] [])
         "vol-1" 0%nat) = Raise (provider_error "VolumeInUse")
  /\ already_absent (provider_error "VolumeInUse") = false
  /\ delete_volume (sample_conn [] [Raise (provider_error "VolumeInUse")] [])
       "vol-1" 0%nat
     = Some (mkRun (Return true) 2%nat 2 [1 # 4]).
Proof. repeat split. Qed.

(** C6: [delete_volume] returns [True] when the provider reports the
    volume absent ([InvalidVolume.NotFound]) or deletes it, at once or
    after up to 5 [VolumeInUse] errors, which are retried; an error of the
    provider with another error code, and an exception of another kind, is
    raised again unchanged, and so is the sixth [VolumeInUse] error in a
    row. *)
Theorem delete_volume_absent_or_reraised {W R : Type} (conn : EC2Connection W R)
    (volume_id : string) (k : nat) (w : W) :
  (k <= 5)%nat ->
  (forall i, (i < k)%nat ->
     exists y, invocation (conn_delete_volume conn volume_id) i w = Raise y
               /\ retryable (literal "VolumeInUse") y = true) ->
  (forall b,
     invocation (conn_delete_volume conn volume_id) k w = Return b ->
     delete_volume conn volume_id w
     = Some (mkRun (Return true)
               (world_before (conn_delete_volume conn volume_id) (S k) w) (S k)
               (sleep_schedule default_initial_sleep_seconds k)))
  /\ (forall x,
        invocation (conn_delete_volume conn volume_id) k w = Raise x ->
        already_absent x = true ->
        delete_volume conn volume_id w
        = Some (mkRun (Return true)
                  (world_before (conn_delete_volume conn volume_id) (S k) w) (S k)
                  (sleep_schedule default_initial_sleep_seconds k)))
  /\ (forall x,
        invocation (conn_delete_volume conn volume_id) k w = Raise x ->
        already_absent x = false ->
        unrecognised (literal "VolumeInUse") x = true ->
        delete_volume conn volume_id w
        = Some (mkRun (Raise x)
                  (world_before (conn_delete_volume conn volume_id) (S k) w) (S k)
                  (sleep_schedule default_initial_sleep_seconds k)))
  /\ (forall x,
        invocation (conn_delete_volume conn volume_id) k w = Raise x ->
        retryable (literal "VolumeInUse") x = true ->
        k = 5%nat ->
        delete_volume conn volume_id w
        = Some (mkRun (Raise x)
                  (world_before (conn_delete_volume conn volume_id) (S k) w) (S k)
                  (sleep_schedule default_initial_sleep_seconds k))).
Proof.
  intros Hk Hfail. unfold delete_volume.
  destruct (delete_volume_invocation conn volume_id (S k) w) as [<- _].
  assert (Hbound : (Z.of_nat k <= default_max_retries)%Z)
    by (unfold default_max_retries; lia).
  assert (Hfail' : forall i, (i < k)%nat ->
            exists y, invocation (delete_volume_body conn volume_id) i w = Raise y
                      /\ retryable (literal "VolumeInUse") y = true).
  { intros i Hi. destruct (Hfail i Hi) as (y & Hy & Hr). exists y. split; [|exact Hr].
    destruct (delete_volume_invocation conn volume_id i w) as [_ ->].
    now rewrite Hy, (in_use_not_absent y Hr). }
  destruct (delete_volume_invocation conn volume_id k w) as [_ Hlast].
  split; [|split; [|split]].
  - intros b Hb. apply retry_boto_after_failures; auto. now rewrite Hlast, Hb.
  - intros x Hx Habs. apply retry_boto_after_failures; auto.
    now rewrite Hlast, Hx, Habs.
  - intros x Hx Habs Hu. apply retry_boto_after_failures_raise; auto.
    now rewrite Hlast, Hx, Habs.
  - intros x Hx Hr ->. apply retry_boto_after_failures_raise; auto.
    + now rewrite Hlast, Hx, (in_use_not_absent x Hr).
    + right. split; [reflexivity|].
      destruct x as [e | | |]; try discriminate Hr. now exists e.
Qed.

Lemma delete_volume_absent_or_reraised_witness :
  delete_volume
    (sample_conn [] [Raise (provider_error "VolumeInUse");
                     Raise (provider_error "InvalidVolume.NotFound")] [])
    "vol-1" 0%nat
  = Some (mkRun (Return true) 2%nat 2 (sleep_schedule default_initial_sleep_seconds 1))
  /\ delete_volume
       (sample_conn [] [Raise (provider_error "VolumeInUse");
                        Raise (provider_error "AuthFailure")] [])
       "vol-1" 0%nat
     = Some (mkRun (Raise (provider_error "AuthFailure")) 2%nat 2
               (sleep_schedule default_initial_sleep_seconds 1)).
Proof.
  split.
  - destruct (delete_volume_absent_or_reraised
                (sample_conn [] [Raise (provider_error "VolumeInUse");
                                 Raise (provider_error "InvalidVolume.NotFound")] [])
                "vol-1" 1 0%nat) as (_ & Habsent & _);
      [lia | intros [|i] Hi; [eexists; split; reflexivity | lia] |].
    apply (Habsent (provider_error "InvalidVolume.NotFound")); reflexivity.
  - destruct (delete_volume_absent_or_reraised
                (sample_conn [] [Raise (provider_error "VolumeInUse");
                                 Raise (provider_error "AuthFailure")] [])
                "vol-1" 1 0%nat) as (_ & _ & Hother & _);
      [lia | intros [|i] Hi; [eexists; split; reflexivity | lia] |].
    apply (Hother (provider_error "AuthFailure")); reflexivity.
Defined.

(** ** Tagging: the requests that reach the provider *)

Lemma explicit_tags_lookup_absent (name description : option string)
    (defaults : gmap string string) :
  (truthy name = false ->
   (explicit_tags name description ∪ defaults) !! "Name" = defaults !! "Name")
  /\ (truthy description = false ->
      (explicit_tags name description ∪ defaults) !! "Description"
      = defaults !! "Description").
Proof.
  unfold explicit_tags.
  destruct name as [[|a n]|], description as [[|b d]|]; cbn [truthy from_option];
    split; intros Hf; try discriminate Hf;
    repeat rewrite ?lookup_union, ?lookup_insert, ?lookup_singleton, ?lookup_empty;
    repeat case_decide; subst; try discriminate; try congruence;
    repeat match goal with
           | |- context [defaults !! ?i] => destruct (defaults !! i)
           end; reflexivity.
Qed.

(** A call with an explicit name that is the empty string: the one request
    that reaches the provider carries the default [Name], not the name of
    the call. *)
Lemma create_tags_empty_name_keeps_default :
  exists r,
    create_tags recording_conn "snap-1" (Some EmptyString) None recording_state
    = Some r
    /\ provider (world r)
       = [(["snap-1"], {[ "Name" := "base"; "Owner" := "ops" ]})]
    /\ ({[ "Name" := "base"; "Owner" := "ops" ]} : gmap string string) !! "Name"
       = Some "base"
    /\ Some "base" <> Some EmptyString.
Proof.
  eexists. split; [reflexivity|]. split; [reflexivity|]. split; [reflexivity|].
  discriminate.
Qed.

(** C7: what the provider receives from a call of [create_tags], its
    answers and the sleeps between them are those of the decorator run on
    the one tagging request for the resource id with the mapping [merged]:
    the default tags as the base, [Name] set to the name when that is given
    and not empty, [Description] set to the description when that is given
    and not empty, each winning over a default for the same key; a name or
    description that is [None] or empty leaves the default in place. *)
Theorem create_tags_submits_merged_tags {W R : Type} (conn : EC2Connection W R)
    (resource_id : string) (name description : option string) (st : state W)
    (defaults : gmap string string) :
  heap st !! default_tags st = Some defaults ->
  exists r merged,
    create_tags conn resource_id name description st = Some r
    /\ merged = explicit_tags name description ∪ defaults
    /\ retry_boto (Cat (Star Dot) (literal ".NotFound"))
         default_max_retries default_initial_sleep_seconds
         (conn_create_tags conn [resource_id] merged) (provider st)
       = Some (mkRun (out r) (provider (world r)) (calls r) (slept r))
    /\ (1 <= calls r)%nat
    /\ sent (world r) = (sent st ++ repeat ([resource_id], merged) (calls r))%list
    /\ (truthy name = true -> merged !! "Name" = name)
    /\ (truthy name = false -> merged !! "Name" = defaults !! "Name")
    /\ (truthy description = true -> merged !! "Description" = description)
    /\ (truthy description = false ->
        merged !! "Description" = defaults !! "Description")
    /\ (forall k, k ≠ "Name" -> k ≠ "Description" -> merged !! k = defaults !! k).
Proof.
  intros Hd.
  destruct (create_tags_provider_run conn resource_id name description st defaults Hd)
    as (r & Hr & Hrun & _).
  destruct (create_tags_run conn resource_id name description st defaults Hd)
    as (r' & Hr' & Hc & _ & Hs & _).
  assert (r' = r) as -> by congruence.
  exists r, (explicit_tags name description ∪ defaults).
  destruct (explicit_tags_lookup name description defaults) as (Hn & Hdsc & Hk).
  destruct (explicit_tags_lookup_absent name description defaults) as (Hn' & Hdsc').
  repeat (split; [assumption || reflexivity|]). exact Hk.
Qed.

Lemma create_tags_submits_merged_tags_witness :
  exists r merged,
    create_tags (sample_conn [] [] [Raise (provider_error "InvalidSnapshot.NotFound")])
      "snap-1" (Some "encrypted") None sample_state = Some r
    /\ merged = explicit_tags (Some "encrypted") None
                ∪ {[ "Name" := "base"; "Owner" := "ops" ]}
    /\ retry_boto (Cat (Star Dot) (literal ".NotFound"))
         default_max_retries default_initial_sleep_seconds
         (conn_create_tags
            (sample_conn [] [] [Raise (provider_error "InvalidSnapshot.NotFound")])
            ["snap-1"] merged) (provider sample_state)
       = Some (mkRun (out r) (provider (world r)) (calls r) (slept r))
    /\ (1 <= calls r)%nat
    /\ sent (world r) = (sent sample_state ++ repeat (["snap-1"], merged) (calls r))%list
    /\ (truthy (Some "encrypted") = true -> merged !! "Name" = Some "encrypted")
    /\ (truthy (Some "encrypted") = false ->
        merged !! "Name"
        = ({[ "Name" := "base"; "Owner" := "ops" ]} : gmap string string) !! "Name")
    /\ (truthy None = true -> merged !! "Description" = None)
    /\ (truthy None = false ->
        merged !! "Description"
        = ({[ "Name" := "base"; "Owner" := "ops" ]} : gmap string string)
            !! "Description")
    /\ (forall k, k ≠ "Name" -> k ≠ "Description" ->
        merged !! k = ({[ "Name" := "base"; "Owner" := "ops" ]} : gmap string string) !! k).
Proof.
  apply (create_tags_submits_merged_tags
           (sample_conn [] [] [Raise (provider_error "InvalidSnapshot.NotFound")])
           "snap-1" (Some "encrypted") None sample_state
           {[ "Name" := "base"; "Owner" := "ops" ]}).
  reflexivity.
Defined.

(** What one call of [create_tags] sends does not depend on the calls made
    before it on the same service object: after a call with any name and
    description, the provider receives from the next call the request with
    that call's resource id and its own explicit tags over the unchanged
    default tags, as often as the decorator repeats it. *)
Theorem create_tags_calls_do_not_interfere {W R : Type} (conn : EC2Connection W R)
    (id1 id2 : string) (name1 description1 name2 description2 : option string)
    (st : state W) (defaults : gmap string string) :
  heap st !! default_tags st = Some defaults ->
  exists r1 r2,
    create_tags conn id1 name1 description1 st = Some r1
    /\ create_tags conn id2 name2 description2 (world r1) = Some r2
    /\ retry_boto (Cat (Star Dot) (literal ".NotFound"))
         default_max_retries default_initial_sleep_seconds
         (conn_create_tags conn [id2] (explicit_tags name2 description2 ∪ defaults))
         (provider (world r1))
       = Some (mkRun (out r2) (provider (world r2)) (calls r2) (slept r2)).
Proof.
  intros Hd.
  destruct (create_tags_provider_run conn id1 name1 description1 st defaults Hd)
    as (r1 & Hr1 & _ & Hkeep).
  destruct (create_tags_provider_run conn id2 name2 description2 (world r1) defaults
              Hkeep) as (r2 & Hr2 & Hrun & _).
  now exists r1, r2.
Qed.

Lemma create_tags_calls_do_not_interfere_witness :
  exists r1 r2,
    create_tags (sample_conn [] [] []) "snap-1" (Some "first") (Some "text")
      sample_state = Some r1
    /\ create_tags (sample_conn [] [] []) "vol-2" None None (world r1) = Some r2
    /\ retry_boto (Cat (Star Dot) (literal ".NotFound"))
         default_max_retries default_initial_sleep_seconds
         (conn_create_tags (sample_conn [] [] []) ["vol-2"]
            (explicit_tags None None ∪ {[ "Name" := "base"; "Owner" := "ops" ]}))
         (provider (world r1))
       = Some (mkRun (out r2) (provider (world r2)) (calls r2) (slept r2)).
Proof.
  apply (create_tags_calls_do_not_interfere (sample_conn [] [] []) "snap-1" "vol-2"
           (Some "first") (Some "text") None None sample_state
           {[ "Name" := "base"; "Owner" := "ops" ]}).
  reflexivity.
Defined.

Lemma AWSService_init_provider {W : Type} (default_tags0 : option loc)
    (h : gmap loc (gmap string string)) (w : W) :
  provider (AWSService_init default_tags0 h w) = w.
Proof.
  unfold AWSService_init.
  destruct default_tags0 as [l|]; [destruct (h !! l) as [d|]|];
    [destruct (decide (d = ∅))|..]; reflexivity.
Qed.

(** A service object built by [__init__] tags with the items of the
    caller's dictionary as defaults, or with no defaults when the caller
    gave [None] or an empty dictionary: the provider receives from its
    [create_tags] the request with the explicit tags over these, as often
    as the decorator repeats it, and no dictionary of the caller is
    changed. *)
Theorem AWSService_init_then_create_tags {W R : Type} (conn : EC2Connection W R)
    (default_tags0 : option loc) (h : gmap loc (gmap string string)) (w : W)
    (resource_id : string) (name description : option string) :
  exists r,
    create_tags conn resource_id name description
      (AWSService_init default_tags0 h w) = Some r
    /\ retry_boto (Cat (Star Dot) (literal ".NotFound"))
         default_max_retries default_initial_sleep_seconds
         (conn_create_tags conn [resource_id]
            (explicit_tags name description
             ∪ match default_tags0 with
               | Some l => default ∅ (h !! l)
               | None => ∅
               end)) w
       = Some (mkRun (out r) (provider (world r)) (calls r) (slept r))
    /\ (forall l d, h !! l = Some d -> heap (world r) !! l = Some d).
Proof.
  destruct (AWSService_init_defaults default_tags0 h w) as (Hd & _ & Hframe).
  destruct (create_tags_provider_run conn resource_id name description _ _ Hd)
    as (r & Hr & Hrun & _).
  destruct (create_tags_run conn resource_id name description _ _ Hd)
    as (r' & Hr' & _ & _ & _ & Hframe').
  assert (r' = r) as -> by congruence.
  rewrite AWSService_init_provider in Hrun.
  exists r. repeat split; auto.
Qed.

(** [create_snapshot]: when the provider's request fails, the call raises
    that error and the provider receives no tagging request; when it
    returns a snapshot, the provider then receives the tagging request for
    the snapshot's id with the name over the default tags, without the
    description, as often as the decorator repeats it, and the call returns
    that snapshot exactly when the tagging returns and raises what the
    tagging raises otherwise; the default tags stay as they were. *)
Theorem create_snapshot_tags_the_snapshot {W R B : Type} (conn : EC2Connection W R)
    (conn' : EC2ConnectionMore W R B) (id_of : R -> string) (volume_id : string)
    (name description : option string) (st : state W)
    (defaults : gmap string string) :
  heap st !! default_tags st = Some defaults ->
  match conn_create_snapshot conn' volume_id description (provider st) with
  | (Raise x, w') =>
      create_snapshot conn conn' id_of volume_id name description st
      = Some (Raise x, with_provider st w')
  | (Return snapshot, w') =>
      exists r st',
        retry_boto (Cat (Star Dot) (literal ".NotFound"))
          default_max_retries default_initial_sleep_seconds
          (conn_create_tags conn [id_of snapshot]
             (explicit_tags name None ∪ defaults)) w' = Some r
        /\ create_snapshot conn conn' id_of volume_id name description st
           = Some (match out r with
                   | Return _ => Return snapshot
                   | Raise x => Raise x
                   end, st')
        /\ provider st' = world r
        /\ heap st' !! default_tags st' = Some defaults
  end.
Proof.
  intros Hd. unfold create_snapshot.
  destruct (conn_create_snapshot conn' volume_id description (provider st))
    as [[snapshot | x] w']; [|reflexivity].
  destruct (create_tags_provider_run conn (id_of snapshot) name None
              (with_provider st w') defaults Hd) as (r & -> & Hrun & Hkeep).
  cbn [with_provider provider] in Hrun.
  eexists; exists (world r). split; [exact Hrun|]. cbn [out world].
  split; [now destruct (out r)|]. now split.
Qed.

Lemma create_snapshot_tags_the_snapshot_witness :
  match conn_create_snapshot (sample_conn_more [] []) "vol-1" (Some "nightly")
          (provider sample_state) with
  | (Raise x, w') =>
      create_snapshot (sample_conn [] [] []) (sample_conn_more [] []) sample_id_of
        "vol-1" (Some "backup") (Some "nightly") sample_state
      = Some (Raise x, with_provider sample_state w')
  | (Return snapshot, w') =>
      exists r st',
        retry_boto (Cat (Star Dot) (literal ".NotFound"))
          default_max_retries default_initial_sleep_seconds
          (conn_create_tags (sample_conn [] [] []) [sample_id_of snapshot]
             (explicit_tags (Some "backup") None
              ∪ {[ "Name" := "base"; "Owner" := "ops" ]})) w' = Some r
        /\ create_snapshot (sample_conn [] [] []) (sample_conn_more [] [])
             sample_id_of "vol-1" (Some "backup") (Some "nightly") sample_state
           = Some (match out r with
                   | Return _ => Return snapshot
                   | Raise x => Raise x
                   end, st')
        /\ provider st' = world r
        /\ heap st' !! default_tags st' = Some {[ "Name" := "base"; "Owner" := "ops" ]}
  end.
Proof.
  apply (create_snapshot_tags_the_snapshot (sample_conn [] [] [])
           (sample_conn_more [] []) sample_id_of "vol-1" (Some "backup")
           (Some "nightly") sample_state {[ "Name" := "base"; "Owner" := "ops" ]}).
  reflexivity.
Defined.
